(** * wordpress-poke-mcp: the REST client, the tool handlers and the SSE server

    A shallow embedding of [src/wordpress/client.ts] (the REST layer:
    query encoding, request execution, pagination headers, media upload),
    of the tool handlers that sit on it ([tools/posts.ts], [tools/pages.ts],
    [tools/comments.ts], [tools/media.ts], [tools/settings.ts]) and of
    [index.ts] (the API-key middleware and the SSE session registry),
    followed by the properties proved about them.

    Conventions of the embedding.
    - A JavaScript string is a [string]: the bytes of its UTF-8 encoding,
      a lone surrogate in the generalised three-byte form (HTTP header
      values, which are byte strings, one byte per character).
    - A JavaScript number is an exact decimal [m * 10^e], [NaN] or an
      infinity. [parseInt] rounds the integer it reads to binary64; the
      numerals of a JSON text are kept exact (the binary64 rounding that
      [JSON.parse] applies beyond 15 significant digits is not modelled).
    - An object is the list of its own enumerable properties in insertion
      order, with unique keys; property names that are array indices (which
      JavaScript enumerates first) do not occur in this program.
    - [Map<string, T>] is a [gmap string T].
    - An [async] function is a state transformer over the world (the remote
      site behind [fetch] and the log of the requests sent) that is either
      fulfilled with a value or rejected with the value thrown. *)

From Stdlib Require Import ZArith Lia List Ascii String DecimalString Bool.
From Stdlib Require Import DecimalPos DecimalN.
From stdpp Require Import base option list strings gmap.

Local Open Scope string_scope.
Local Open Scope Z_scope.
Local Open Scope list_scope.

(** ** The JavaScript values and built-ins the program uses *)
Module Js.

Inductive Number :=
| NaN
| Dec (m e : Z)
| Infinity (negative : bool).

#[warnings="-register-all"]
Inductive Value :=
| JUndefined
| JNull
| JBool (b : bool)
| JNum (n : Number)
| JStr (s : string)
| JArr (items : list Value)
| JObj (members : list (string * Value)).

(** An integer-valued number. *)
Definition JInt (z : Z) : Value := JNum (Dec z 0).

(** The double-quote character (code 34). *)
Definition dquote : ascii := "034"%char.

(** [quoted s] is [s] between double quotes, as it stands in a JSON text. *)
Definition quoted (s : string) : string :=
  String dquote (s +:+ String dquote "").

Definition decimal (n : N) : string := NilZero.string_of_uint (N.to_uint n).

Fixpoint string_repeat (n : nat) (s : string) : string :=
  match n with
  | O => ""
  | S n' => s +:+ string_repeat n' s
  end.

Fixpoint drop_zeros (l : list ascii) : list ascii :=
  match l with
  | c :: l' => if Ascii.eqb c "0" then drop_zeros l' else l
  | [] => []
  end.

(** [Number::toString(x)] in radix 10 (ECMA-262, 6.1.6.1.20): with [s] the
    [k] significant digits of [x] and [x = s * 10^(n-k)], plain digits for
    [-6 < n <= 21] and the exponent form otherwise. *)
Definition Number_toString (x : Number) : string :=
  match x with
  | NaN => "NaN"
  | Infinity negative => if negative then "-Infinity" else "Infinity"
  | Dec m e =>
      if m =? 0 then "0" else
      let sign := if m <? 0 then "-" else "" in
      let ds := list_ascii_of_string (decimal (Z.to_N (Z.abs m))) in
      let s := rev (drop_zeros (rev ds)) in
      let k := Z.of_nat (length s) in
      let n := Z.of_nat (length ds) + e in
      let digits := string_of_list_ascii s in
      sign +:+
      (if (k <=? n) && (n <=? 21) then
         digits +:+ string_repeat (Z.to_nat (n - k)) "0"
       else if (0 <? n) && (n <=? 21) then
         string_of_list_ascii (firstn (Z.to_nat n) s) +:+ "." +:+
         string_of_list_ascii (skipn (Z.to_nat n) s)
       else if (-6 <? n) && (n <=? 0) then
         "0." +:+ string_repeat (Z.to_nat (- n)) "0" +:+ digits
       else
         let ex := (if n - 1 <? 0 then "-" else "+") +:+
                   decimal (Z.to_N (Z.abs (n - 1))) in
         match s with
         | [] => ""
         | [d] => String d ("e" +:+ ex)
         | d :: rest => String d ("." +:+ string_of_list_ascii rest +:+ "e" +:+ ex)
         end)
  end.

(** [ToBoolean]: what [if (v)], [!v] and [v || w] test. *)
Definition truthy (v : Value) : bool :=
  match v with
  | JUndefined | JNull => false
  | JBool b => b
  | JNum NaN => false
  | JNum (Dec m _) => negb (m =? 0)
  | JNum (Infinity _) => true
  | JStr s => negb (String.eqb s "")
  | JArr _ | JObj _ => true
  end.

(** [a || b]. *)
Definition or_else (a b : Value) : Value := if truthy a then a else b.

Definition traverse {A B : Type} (f : A -> option B) : list A -> option (list B) :=
  fix go (l : list A) : option (list B) :=
    match l with
    | [] => Some []
    | x :: l' =>
        match f x, go l' with
        | Some y, Some ys => Some (y :: ys)
        | _, _ => None
        end
    end.

Fixpoint assoc {A : Type} (k : string) (l : list (string * A)) : option A :=
  match l with
  | [] => None
  | (k', v) :: l' => if String.eqb k' k then Some v else assoc k l'
  end.

(** [o[k] = v] on the own properties: an existing key keeps its place. *)
Fixpoint obj_set {A : Type} (k : string) (v : A) (l : list (string * A))
  : list (string * A) :=
  match l with
  | [] => [(k, v)]
  | (k', v') :: l' =>
      if String.eqb k' k then (k, v) :: l' else (k', v') :: obj_set k v l'
  end.

(** [{ ...a, ...b }]: the properties of [b] written over those of [a]. *)
Definition spread {A : Type} (a b : list (string * A)) : list (string * A) :=
  fold_left (fun o kv => obj_set (fst kv) (snd kv) o) b a.

(** [String(v)] and template interpolation: [None] is the [TypeError] that
    [OrdinaryToPrimitive] throws for an object whose own [toString] property
    is not callable (no property of a value read from JSON is). *)
Fixpoint ToString (v : Value) : option string :=
  match v with
  | JUndefined => Some "undefined"
  | JNull => Some "null"
  | JBool true => Some "true"
  | JBool false => Some "false"
  | JNum n => Some (Number_toString n)
  | JStr s => Some s
  | JArr items =>
      option_map (String.concat ",")
        (traverse (fun x => match x with
                            | JUndefined | JNull => Some ""
                            | _ => ToString x
                            end) items)
  | JObj members =>
      match assoc "toString" members with
      | Some _ => None
      | None => Some "[object Object]"
      end
  end.

(** [v.name] for a property name that no built-in prototype defines (such
    as [message] and [code]): [None] is the [TypeError] of reading a
    property of [undefined] or [null]. *)
Definition member (name : string) (v : Value) : option Value :=
  match v with
  | JUndefined | JNull => None
  | JObj members =>
      Some (match assoc name members with Some x => x | None => JUndefined end)
  | _ => Some JUndefined
  end.

(** [s.startsWith(p)] and [s.slice(n)]. *)
Definition startsWith (p s : string) : bool := String.prefix p s.

Fixpoint slice (n : nat) (s : string) : string :=
  match n, s with
  | O, _ => s
  | S n', String _ s' => slice n' s'
  | S _, EmptyString => ""
  end.

(** Whether the character [c] occurs in [s]. *)
Fixpoint contains (c : ascii) (s : string) : bool :=
  match s with
  | EmptyString => false
  | String c' s' => Ascii.eqb c' c || contains c s'
  end.

(** *** JSON.stringify *)

Definition code (c : ascii) : Z := Z.of_N (N_of_ascii c).

Definition chr (n : Z) : ascii := ascii_of_N (Z.to_N n).

Definition hex_digit (upper : bool) (n : Z) : ascii :=
  if n <? 10 then chr (48 + n) else chr ((if upper then 55 else 87) + n).

(** [QuoteJSONString] (ECMA-262, 25.5.2.3) on well-formed text. *)
Fixpoint quote_chars (s : string) : string :=
  match s with
  | EmptyString => ""
  | String c s' =>
      let n := code c in
      (if n =? 8 then "\b" else if n =? 9 then "\t" else if n =? 10 then "\n"
       else if n =? 12 then "\f" else if n =? 13 then "\r"
       else if n =? 34 then String "\" (String dquote "")
       else if n =? 92 then "\\"
       else if n <? 32 then
         "\u00" +:+ String (hex_digit false (n / 16)) (String (hex_digit false (n mod 16)) "")
       else String c "") +:+ quote_chars s'
  end.

Definition QuoteJSONString (s : string) : string :=
  String dquote (quote_chars s +:+ String dquote "").

Definition filter_map {A B : Type} (f : A -> option B) : list A -> list B :=
  fix go (l : list A) : list B :=
    match l with
    | [] => []
    | x :: l' => match f x with Some y => y :: go l' | None => go l' end
    end.

(** The brackets around the parts of an array or object ([SerializeJSONArray],
    [SerializeJSONObject]) for the indentation unit [gap]. *)
Definition enclose (open close gap indent : string) (partial : list string) : string :=
  match partial with
  | [] => open +:+ close
  | _ =>
      if String.eqb gap "" then open +:+ String.concat "," partial +:+ close
      else
        let inner := indent +:+ gap in
        let nl := String (chr 10) "" in
        open +:+ nl +:+ inner +:+ String.concat ("," +:+ nl +:+ inner) partial +:+
        nl +:+ indent +:+ close
  end.

(** [SerializeJSONProperty]: [None] is [undefined] (the property is left
    out of an object, and written [null] in an array). *)
Fixpoint SerializeJSONProperty (gap indent : string) (v : Value) : option string :=
  match v with
  | JUndefined => None
  | JNull => Some "null"
  | JBool true => Some "true"
  | JBool false => Some "false"
  | JNum NaN | JNum (Infinity _) => Some "null"
  | JNum n => Some (Number_toString n)
  | JStr s => Some (QuoteJSONString s)
  | JArr items =>
      Some (enclose "[" "]" gap indent
              (map (fun x => match SerializeJSONProperty gap (indent +:+ gap) x with
                             | Some t => t
                             | None => "null"
                             end) items))
  | JObj members =>
      Some (enclose "{" "}" gap indent
              (filter_map (fun kv =>
                 match kv with
                 | (k, x) =>
                     match SerializeJSONProperty gap (indent +:+ gap) x with
                     | Some t =>
                         Some (QuoteJSONString k +:+ ":" +:+
                               (if String.eqb gap "" then "" else " ") +:+ t)
                     | None => None
                     end
                 end) members))
  end.

(** [JSON.stringify(v)] and [JSON.stringify(v, null, 2)]. *)
Definition JSON_stringify (v : Value) : option string :=
  SerializeJSONProperty "" "" v.

Definition JSON_stringify_2 (v : Value) : option string :=
  SerializeJSONProperty "  " "" v.

(** *** JSON.parse

    A one-pass pushdown automaton over the characters of the text (ECMA-404
    grammar): [step] consumes one character, [JSON_parse] runs it over the
    text and reads the value off the final state; [None] is the
    [SyntaxError]. *)

Inductive Frame :=
| InArray (items : list Value)
| InObject (members : list (string * Value)) (key : option string).

Inductive NumState :=
| NMinus | NZero | NInt | NDot | NFrac | NExp | NExpSign | NExpDigits.

Record NumAcc := {
  neg : bool;
  mant : Z;
  frac : Z;
  eneg : bool;
  expo : Z
}.

Inductive Mode :=
| MValue
| MArrayStart
| MObjectStart
| MObjectKey
| MColon
| MArrayNext
| MObjectNext
| MDone (v : Value)
| MString (is_key : bool) (acc : list ascii) (hi : option Z)
| MEscape (is_key : bool) (acc : list ascii) (hi : option Z)
| MUnicode (is_key : bool) (acc : list ascii) (hi : option Z) (remaining : nat) (cu : Z)
| MNumber (st : NumState) (a : NumAcc)
| MLiteral (rest : list ascii) (v : Value).

Definition PState : Type := Mode * list Frame.

Definition is_ws (c : ascii) : bool :=
  let n := code c in (n =? 32) || (n =? 9) || (n =? 10) || (n =? 13).

Definition digit (c : ascii) : option Z :=
  let n := code c in
  if (48 <=? n) && (n <=? 57) then Some (n - 48) else None.

Definition hex_value (c : ascii) : option Z :=
  let n := code c in
  if (48 <=? n) && (n <=? 57) then Some (n - 48)
  else if (65 <=? n) && (n <=? 70) then Some (n - 55)
  else if (97 <=? n) && (n <=? 102) then Some (n - 87)
  else None.

(** The UTF-8 bytes of a code point (a lone surrogate gets the generalised
    three-byte form). *)
Definition utf8 (cp : Z) : list ascii :=
  if cp <? 128 then [chr cp]
  else if cp <? 2048 then [chr (192 + cp / 64); chr (128 + cp mod 64)]
  else if cp <? 65536 then
    [chr (224 + cp / 4096); chr (128 + (cp / 64) mod 64); chr (128 + cp mod 64)]
  else
    [chr (240 + cp / 262144); chr (128 + (cp / 4096) mod 64);
     chr (128 + (cp / 64) mod 64); chr (128 + cp mod 64)].

Definition is_high_surrogate (cu : Z) : bool := (55296 <=? cu) && (cu <=? 56319).
Definition is_low_surrogate (cu : Z) : bool := (56320 <=? cu) && (cu <=? 57343).

(** The characters read so far are kept in reverse; a pending high
    surrogate that no low surrogate followed is written out on its own. *)
Definition flush (hi : option Z) (acc : list ascii) : list ascii :=
  match hi with
  | Some h => rev_append (utf8 h) acc
  | None => acc
  end.

(** A [\uXXXX] escape has been read as the code unit [cu]. *)
Definition add_unit (is_key : bool) (acc : list ascii) (hi : option Z) (cu : Z) : Mode :=
  match hi with
  | Some h =>
      if is_low_surrogate cu then
        MString is_key
          (rev_append (utf8 (65536 + (h - 55296) * 1024 + (cu - 56320))) acc) None
      else if is_high_surrogate cu then MString is_key (flush hi acc) (Some cu)
      else MString is_key (rev_append (utf8 cu) (flush hi acc)) None
  | None =>
      if is_high_surrogate cu then MString is_key acc (Some cu)
      else MString is_key (rev_append (utf8 cu) acc) None
  end.

Definition number_of (a : NumAcc) : Value :=
  JNum (Dec (if neg a then - mant a else mant a)
            ((if eneg a then - expo a else expo a) - frac a)).

Definition accepting (st : NumState) : bool :=
  match st with
  | NZero | NInt | NFrac | NExpDigits => true
  | _ => false
  end.

Definition num_step (st : NumState) (a : NumAcc) (c : ascii) : option (NumState * NumAcc) :=
  let with_mant d := {| neg := neg a; mant := mant a * 10 + d; frac := frac a;
                        eneg := eneg a; expo := expo a |} in
  let with_frac d := {| neg := neg a; mant := mant a * 10 + d; frac := frac a + 1;
                        eneg := eneg a; expo := expo a |} in
  let with_expo d := {| neg := neg a; mant := mant a; frac := frac a;
                        eneg := eneg a; expo := expo a * 10 + d |} in
  let with_eneg b := {| neg := neg a; mant := mant a; frac := frac a;
                        eneg := b; expo := expo a |} in
  let is_dot := code c =? 46 in
  let is_e := (code c =? 101) || (code c =? 69) in
  match st, digit c with
  | NMinus, Some d => Some (if d =? 0 then NZero else NInt, with_mant d)
  | NMinus, None => None
  | NZero, Some _ => None
  | NInt, Some d => Some (NInt, with_mant d)
  | (NZero | NInt), None =>
      if is_dot then Some (NDot, a) else if is_e then Some (NExp, a) else None
  | NDot, Some d => Some (NFrac, with_frac d)
  | NDot, None => None
  | NFrac, Some d => Some (NFrac, with_frac d)
  | NFrac, None => if is_e then Some (NExp, a) else None
  | NExp, Some d => Some (NExpDigits, with_expo d)
  | NExp, None =>
      if code c =? 43 then Some (NExpSign, with_eneg false)
      else if code c =? 45 then Some (NExpSign, with_eneg true)
      else None
  | NExpSign, Some d => Some (NExpDigits, with_expo d)
  | NExpSign, None => None
  | NExpDigits, Some d => Some (NExpDigits, with_expo d)
  | NExpDigits, None => None
  end.

(** A value is complete: it goes into the enclosing array or object. *)
Definition complete (v : Value) (stack : list Frame) : option PState :=
  match stack with
  | [] => Some (MDone v, [])
  | InArray items :: st => Some (MArrayNext, InArray (v :: items) :: st)
  | InObject members (Some k) :: st =>
      Some (MObjectNext, InObject (obj_set k v members) None :: st)
  | InObject _ None :: _ => None
  end.

Definition begin_value (c : ascii) (stack : list Frame) : option PState :=
  match c with
  | "{"%char => Some (MObjectStart, InObject [] None :: stack)
  | "["%char => Some (MArrayStart, InArray [] :: stack)
  | "034"%char => Some (MString false [] None, stack)
  | "-"%char =>
      Some (MNumber NMinus {| neg := true; mant := 0; frac := 0; eneg := false; expo := 0 |},
            stack)
  | "t"%char => Some (MLiteral (list_ascii_of_string "rue") (JBool true), stack)
  | "f"%char => Some (MLiteral (list_ascii_of_string "alse") (JBool false), stack)
  | "n"%char => Some (MLiteral (list_ascii_of_string "ull") JNull, stack)
  | _ =>
      match digit c with
      | Some d =>
          Some (MNumber (if d =? 0 then NZero else NInt)
                  {| neg := false; mant := d; frac := 0; eneg := false; expo := 0 |},
                stack)
      | None => None
      end
  end.

(** After a complete value: a separator, the closing bracket, or blanks. *)
Definition step_after (mode : Mode) (stack : list Frame) (c : ascii) : option PState :=
  if is_ws c then Some (mode, stack) else
  match mode, stack with
  | MArrayNext, InArray items :: st =>
      if Ascii.eqb c "," then Some (MValue, stack)
      else if Ascii.eqb c "]" then complete (JArr (rev items)) st
      else None
  | MObjectNext, InObject members None :: st =>
      if Ascii.eqb c "," then Some (MObjectKey, stack)
      else if Ascii.eqb c "}" then complete (JObj members) st
      else None
  | _, _ => None
  end.

Definition end_string (is_key : bool) (s : string) (stack : list Frame) : option PState :=
  if is_key then
    match stack with
    | InObject members None :: st => Some (MColon, InObject members (Some s) :: st)
    | _ => None
    end
  else complete (JStr s) stack.

Definition step (ps : PState) (c : ascii) : option PState :=
  let (mode, stack) := ps in
  match mode with
  | MValue => if is_ws c then Some ps else begin_value c stack
  | MArrayStart =>
      if is_ws c then Some ps
      else if Ascii.eqb c "]" then
        match stack with
        | InArray _ :: st => complete (JArr []) st
        | _ => None
        end
      else begin_value c stack
  | MObjectStart =>
      if is_ws c then Some ps
      else if Ascii.eqb c "}" then
        match stack with
        | InObject _ _ :: st => complete (JObj []) st
        | _ => None
        end
      else if Ascii.eqb c dquote then Some (MString true [] None, stack)
      else None
  | MObjectKey =>
      if is_ws c then Some ps
      else if Ascii.eqb c dquote then Some (MString true [] None, stack)
      else None
  | MColon =>
      if is_ws c then Some ps
      else if Ascii.eqb c ":" then Some (MValue, stack)
      else None
  | MArrayNext | MObjectNext | MDone _ => step_after mode stack c
  | MLiteral rest v =>
      match rest with
      | r :: rest' =>
          if Ascii.eqb c r then
            match rest' with
            | [] => complete v stack
            | _ => Some (MLiteral rest' v, stack)
            end
          else None
      | [] => None
      end
  | MNumber st a =>
      match num_step st a c with
      | Some (st', a') => Some (MNumber st' a', stack)
      | None =>
          if accepting st then
            match complete (number_of a) stack with
            | Some (mode', stack') => step_after mode' stack' c
            | None => None
            end
          else None
      end
  | MString k acc hi =>
      if Ascii.eqb c dquote then
        end_string k (string_of_list_ascii (rev (flush hi acc))) stack
      else if Ascii.eqb c "\" then Some (MEscape k acc hi, stack)
      else if code c <? 32 then None
      else Some (MString k (c :: flush hi acc) None, stack)
  | MEscape k acc hi =>
      let plain n := Some (MString k (chr n :: flush hi acc) None, stack) in
      match c with
      | "u"%char => Some (MUnicode k acc hi 4 0, stack)
      | "034"%char => plain 34
      | "\"%char => plain 92
      | "/"%char => plain 47
      | "b"%char => plain 8
      | "f"%char => plain 12
      | "n"%char => plain 10
      | "r"%char => plain 13
      | "t"%char => plain 9
      | _ => None
      end
  | MUnicode k acc hi remaining cu =>
      match hex_value c, remaining with
      | Some d, S O => Some (add_unit k acc hi (cu * 16 + d), stack)
      | Some d, S n => Some (MUnicode k acc hi n (cu * 16 + d), stack)
      | _, _ => None
      end
  end.

Fixpoint run (ps : PState) (text : string) : option PState :=
  match text with
  | EmptyString => Some ps
  | String c text' =>
      match step ps c with
      | Some ps' => run ps' text'
      | None => None
      end
  end.

Definition finish (ps : PState) : option Value :=
  match ps with
  | (MDone v, []) => Some v
  | (MNumber st a, []) => if accepting st then Some (number_of a) else None
  | _ => None
  end.

Definition JSON_parse (text : string) : option Value :=
  match run (MValue, []) text with
  | Some ps => finish ps
  | None => None
  end.

(** *** parseInt

    [parseInt(s, 10)] (ECMA-262, 19.2.5): leading white space is skipped,
    one sign is read, then the longest run of decimal digits; no digit at
    all gives [NaN]. The argument is a header value: one byte per
    character, so the white space is TAB, LF, VT, FF, CR, SP and NBSP. *)

Definition is_StrWhiteSpaceChar (c : ascii) : bool :=
  let n := code c in
  ((9 <=? n) && (n <=? 13)) || (n =? 32) || (n =? 160).

Fixpoint trim_start (s : string) : string :=
  match s with
  | String c s' => if is_StrWhiteSpaceChar c then trim_start s' else s
  | EmptyString => ""
  end.

(** The value of the longest digit prefix of [s], after the digits
    [acc] already read ([seen] says whether there was any). *)
Fixpoint digits_value (seen : bool) (acc : Z) (s : string) : option Z :=
  match s with
  | String c s' =>
      match digit c with
      | Some d => digits_value true (acc * 10 + d) s'
      | None => if seen then Some acc else None
      end
  | EmptyString => if seen then Some acc else None
  end.

(** The Number value of an integer: the binary64 value nearest to it
    (ties to the even significand), an infinity beyond the largest finite
    one. Integers of magnitude below [2^53] are their own value. *)
Definition to_binary64 (z : Z) : Number :=
  let a := Z.abs z in
  if a <? 2 ^ 53 then Dec z 0
  else
    let e := Z.log2 a - 52 in
    let q := Z.shiftr a e in
    let r := a - Z.shiftl q e in
    let half := Z.shiftl 1 (e - 1) in
    let q' := if (half <? r) || ((r =? half) && Z.odd q) then q + 1 else q in
    let rounded := Z.shiftl q' e in
    if 2 ^ 1024 <=? rounded then Infinity (z <? 0)
    else Dec (Z.sgn z * rounded) 0.

Definition parseInt10 (s : string) : Number :=
  let t := trim_start s in
  let (sign, body) :=
    match t with
    | String "-"%char t' => (-1, t')
    | String "+"%char t' => (1, t')
    | _ => (1, t)
    end in
  match digits_value false 0 body with
  | Some n => to_binary64 (sign * n)
  | None => NaN
  end.

(** *** Buffer.from(s).toString('base64') *)

Definition base64_char (n : Z) : ascii :=
  if n <? 26 then chr (65 + n)
  else if n <? 52 then chr (97 + (n - 26))
  else if n <? 62 then chr (48 + (n - 52))
  else if n =? 62 then "+"%char
  else "/"%char.

Fixpoint base64 (s : string) : string :=
  match s with
  | String a (String b (String c s')) =>
      let n := code a * 65536 + code b * 256 + code c in
      String (base64_char (n / 262144))
        (String (base64_char ((n / 4096) mod 64))
           (String (base64_char ((n / 64) mod 64))
              (String (base64_char (n mod 64)) (base64 s'))))
  | String a (String b EmptyString) =>
      let n := code a * 65536 + code b * 256 in
      String (base64_char (n / 262144))
        (String (base64_char ((n / 4096) mod 64))
           (String (base64_char ((n / 64) mod 64)) "="))
  | String a EmptyString =>
      let n := code a * 65536 in
      String (base64_char (n / 262144))
        (String (base64_char ((n / 4096) mod 64)) "==")
  | EmptyString => ""
  end.

(** *** URLSearchParams

    The list of name-value pairs, [set] and the
    [application/x-www-form-urlencoded] serializer (WHATWG URL, 5.2):
    letters, digits and [* - . _] stand for themselves, a space is [+],
    every other byte is [%XX]. Names and values are well-formed text
    here: the replacement of a lone surrogate by U+FFFD that [set]
    applies first is left out. *)

Definition urlencoded_byte (c : ascii) : string :=
  let n := code c in
  if ((48 <=? n) && (n <=? 57)) || ((65 <=? n) && (n <=? 90)) ||
     ((97 <=? n) && (n <=? 122)) ||
     (n =? 42) || (n =? 45) || (n =? 46) || (n =? 95)
  then String c ""
  else if n =? 32 then "+"
  else String "%" (String (hex_digit true (n / 16)) (String (hex_digit true (n mod 16)) "")).

Fixpoint urlencode (s : string) : string :=
  match s with
  | EmptyString => ""
  | String c s' => urlencoded_byte c +:+ urlencode s'
  end.

(** [searchParams.set(name, value)]: the first pair named [name] takes the
    value and the other pairs of that name go; a new name is appended. *)
Fixpoint remove_name (name : string) (l : list (string * string)) : list (string * string) :=
  match l with
  | [] => []
  | (n, v) :: l' =>
      if String.eqb n name then remove_name name l' else (n, v) :: remove_name name l'
  end.

Fixpoint searchParams_set (name value : string) (l : list (string * string))
  : list (string * string) :=
  match l with
  | [] => [(name, value)]
  | (n, v) :: l' =>
      if String.eqb n name then (name, value) :: remove_name name l'
      else (n, v) :: searchParams_set name value l'
  end.

Definition serialize_pair (p : string * string) : string :=
  urlencode (fst p) +:+ "=" +:+ urlencode (snd p).

Definition searchParams_toString (l : list (string * string)) : string :=
  String.concat "&" (map serialize_pair l).

(** *** encodeURIComponent

    ECMA-262, 19.2.6.5: letters, digits and [- _ . ! ~ * ' ( )] stand for
    themselves, every other byte of the UTF-8 encoding is [%XX]; a lone
    surrogate makes it throw a [URIError] ([None]). In the bytes of a
    string a lone surrogate is the three-byte form [ED A0..BF xx] (a
    surrogate pair is one four-byte character). *)
Definition uri_component_byte (c : ascii) : string :=
  let n := code c in
  if ((48 <=? n) && (n <=? 57)) || ((65 <=? n) && (n <=? 90)) ||
     ((97 <=? n) && (n <=? 122)) ||
     (n =? 45) || (n =? 95) || (n =? 46) || (n =? 33) || (n =? 126) ||
     (n =? 42) || (n =? 39) || (n =? 40) || (n =? 41)
  then String c ""
  else String "%" (String (hex_digit true (n / 16)) (String (hex_digit true (n mod 16)) "")).

Fixpoint uri_component_bytes (s : string) : string :=
  match s with
  | EmptyString => ""
  | String c s' => uri_component_byte c +:+ uri_component_bytes s'
  end.

Fixpoint has_lone_surrogate (s : string) : bool :=
  match s with
  | EmptyString => false
  | String a s' =>
      match s' with
      | String b _ => (code a =? 237) && (160 <=? code b) && (code b <=? 191)
      | EmptyString => false
      end || has_lone_surrogate s'
  end.

Definition encodeURIComponent (s : string) : option string :=
  if has_lone_surrogate s then None else Some (uri_component_bytes s).

(** *** USVString and ASCII lower case

    The conversion of a string to a [USVString] (Web IDL), which the
    methods of [FormData] apply to names, values and file names: every
    lone surrogate becomes U+FFFD (the bytes [EF BF BD]). *)
Fixpoint USVString (s : string) : string :=
  match s with
  | EmptyString => ""
  | String a s' =>
      match s' with
      | String b (String _ rest) =>
          if (code a =? 237) && (160 <=? code b) && (code b <=? 191)
          then String (chr 239) (String (chr 191) (String (chr 189) (USVString rest)))
          else String a (USVString s')
      | _ => String a (USVString s')
      end
  end.

Definition ascii_lowercase (c : ascii) : ascii :=
  if (65 <=? code c) && (code c <=? 90) then chr (code c + 32) else c.

Fixpoint toLowerCase_ascii (s : string) : string :=
  match s with
  | EmptyString => ""
  | String c s' => String (ascii_lowercase c) (toLowerCase_ascii s')
  end.

(** The percent-decoding that reads a form-urlencoded name or value back
    (WHATWG URL, 5.1): [+] is a space, [%XX] is the byte [XX]. *)
Fixpoint urldecode (s : string) : string :=
  match s with
  | EmptyString => ""
  | String c rest =>
      if code c =? 43 then String " " (urldecode rest)
      else if code c =? 37 then
        match rest with
        | String a (String b rest') =>
            match hex_value a, hex_value b with
            | Some x, Some y => String (chr (x * 16 + y)) (urldecode rest')
            | _, _ => String c (urldecode rest)
            end
        | _ => String c (urldecode rest)
        end
      else String c (urldecode rest)
  end.

(** Whether [s] ends with the character [c]. *)
Fixpoint ends_with (c : ascii) (s : string) : bool :=
  match s with
  | EmptyString => false
  | String c' EmptyString => Ascii.eqb c' c
  | String _ s' => ends_with c s'
  end.

(** [s[0]]: the first UTF-16 code unit of the string, as a string (for a
    character beyond the basic plane, its high surrogate). *)
Definition first_unit (s : string) : Value :=
  match s with
  | EmptyString => JUndefined
  | String a rest =>
      let n := code a in
      if n <? 128 then JStr (String a "")
      else if n <? 224 then JStr (String a (String.substring 0 1 rest))
      else if n <? 240 then JStr (String a (String.substring 0 2 rest))
      else
        match rest with
        | String b (String c (String d _)) =>
            let cp := (n - 240) * 262144 + (code b - 128) * 4096 +
                      (code c - 128) * 64 + (code d - 128) in
            JStr (string_of_list_ascii (utf8 (55296 + (cp - 65536) / 1024)))
        | _ => JStr s
        end
  end.

(** [v[0]]: [None] is the [TypeError] on [undefined] and [null]. *)
Definition index0 (v : Value) : option Value :=
  match v with
  | JUndefined | JNull => None
  | JArr [] => Some JUndefined
  | JArr (x :: _) => Some x
  | JObj members =>
      Some (match assoc "0" members with Some x => x | None => JUndefined end)
  | JStr s => Some (first_unit s)
  | _ => Some JUndefined
  end.

(** *** Exceptions

    A value thrown: an [Error] object (with the name of its class and its
    message), or anything else. *)
Inductive Thrown :=
| ErrorObject (name message : string)
| NotAnError (v : Value).

(** [error instanceof Error ? error.message : 'Unknown error']. *)
Definition message_of (error : Thrown) : string :=
  match error with
  | ErrorObject _ message => message
  | NotAnError _ => "Unknown error"
  end.

End Js.

(** ** [src/wordpress/client.ts] and the tool handlers *)
Module WordPress.
Import Js.

Inductive Outcome (A : Type) :=
| Fulfilled (a : A)
| Rejected (t : Thrown).

Arguments Fulfilled {A} a.
Arguments Rejected {A} t.

Inductive FormEntry :=
| FileEntry (name content type filename : string)
| TextEntry (name value : string).

Inductive Body :=
| TextBody (s : string)
| FormBody (entries : list FormEntry).

Record RequestInit := {
  method : option string;
  headers : list (string * string);
  body : option Body
}.

(** A response: its status, its headers by lower-case name (what
    [headers.get] finds) and the text of its body. *)
Record Response := {
  status : Z;
  response_headers : gmap string string;
  text : string
}.

(** [response.ok]. *)
Definition ok (response : Response) : bool :=
  (200 <=? status response) && (status response <=? 299).

Record WordPressClient := {
  siteUrl : string;
  username : string;
  appPassword : string;
  apiBase : string
}.

(** [siteUrl.replace(/\/+$/, '')]. *)
Fixpoint strip_trailing_slashes (s : string) : string :=
  match s with
  | EmptyString => ""
  | String c s' =>
      match strip_trailing_slashes s' with
      | EmptyString => if Ascii.eqb c "/" then "" else String c ""
      | rest => String c rest
      end
  end.

Definition new_WordPressClient (siteUrl username appPassword : string) : WordPressClient :=
  let site := strip_trailing_slashes siteUrl in
  {| siteUrl := site;
     username := username;
     appPassword := appPassword;
     apiBase := site +:+ "/wp-json/wp/v2" |}.

Definition getAuthHeader (this : WordPressClient) : string :=
  let credentials := base64 (username this +:+ ":" +:+ appPassword this) in
  "Basic " +:+ credentials.

(** The error path that [request] and [requestWithHeaders] share:
    [[
      try {
        const errorJson = JSON.parse(errorBody);
        errorMessage = errorJson.message || errorJson.code || errorBody;
      } catch { errorMessage = errorBody; }
    ]]
    Reading a property of [null] throws inside the [try]. *)
Definition parsed_errorMessage (errorBody : string) : Value :=
  match JSON_parse errorBody with
  | Some errorJson =>
      match member "message" errorJson, member "code" errorJson with
      | Some message, Some code => or_else (or_else message code) (JStr errorBody)
      | _, _ => JStr errorBody
      end
  | None => JStr errorBody
  end.

(** [new Error(`WordPress API error (${status}): ${errorMessage}`)]; the
    interpolation of an object that cannot be converted throws instead. *)
Definition api_error (status : Z) (errorMessage : Value) : Thrown :=
  match ToString errorMessage with
  | Some s =>
      ErrorObject "Error"
        ("WordPress API error (" +:+ Number_toString (Dec status 0) +:+ "): " +:+ s)
  | None => ErrorObject "TypeError" "Cannot convert object to primitive value"
  end.

(** [response.headers.get(name) || '0'] read by [parseInt(_, 10)]. *)
Definition header_count (response : Response) (name : string) : Number :=
  parseInt10
    (match response_headers response !! name with
     | Some v => if String.eqb v "" then "0" else v
     | None => "0"
     end).

Record WPListResponse := {
  data : Value;
  total : Number;
  totalPages : Number
}.

(** The values of the typed parameter and input objects ([types.ts]):
    strings, numbers, booleans and arrays of them, or absent. *)
#[warnings="-register-all"]
Inductive Param :=
| PUndefined
| PNull
| PBool (b : bool)
| PNum (n : Number)
| PStr (s : string)
| PArr (items : list Param).

Definition PInt (z : Z) : Param := PNum (Dec z 0).

(** [String(p)]; [join] is [Array.prototype.join], which writes
    [undefined] and [null] elements as empty strings. *)
Fixpoint String_of (p : Param) : string :=
  match p with
  | PUndefined => "undefined"
  | PNull => "null"
  | PBool true => "true"
  | PBool false => "false"
  | PNum n => Number_toString n
  | PStr s => s
  | PArr items =>
      String.concat ","
        (map (fun x => match x with
                       | PUndefined | PNull => ""
                       | _ => String_of x
                       end) items)
  end.

(** What [join] writes for one element. *)
Definition element_string (x : Param) : string :=
  match x with
  | PUndefined | PNull => ""
  | _ => String_of x
  end.

Definition join (sep : string) (items : list Param) : string :=
  String.concat sep (map element_string items).

Fixpoint to_value (p : Param) : Value :=
  match p with
  | PUndefined => JUndefined
  | PNull => JNull
  | PBool b => JBool b
  | PNum n => JNum n
  | PStr s => JStr s
  | PArr items => JArr (map to_value items)
  end.

Definition Object : Type := list (string * Param).

(** The string one parameter contributes, if it contributes. *)
Definition query_value (value : Param) : option string :=
  match value with
  | PUndefined | PNull => None
  | PArr items => Some (join "," items)
  | PBool b => Some (if b then "true" else "false")
  | _ => Some (String_of value)
  end.

(** The [URLSearchParams] that the loop of [buildQueryString] fills. *)
Definition query_pairs (params : Object) : list (string * string) :=
  fold_left
    (fun searchParams kv =>
       match query_value (snd kv) with
       | Some s => searchParams_set (fst kv) s searchParams
       | None => searchParams
       end)
    params [].

Definition buildQueryString (params : Object) : string :=
  let queryString := searchParams_toString (query_pairs params) in
  if String.eqb queryString "" then "" else "?" +:+ queryString.

(** The pairs that the entries of an object contribute, one by one. *)
Definition contributed (params : Object) : list (string * string) :=
  flat_map (fun kv => match query_value (snd kv) with
                      | Some s => [(fst kv, s)]
                      | None => []
                      end) params.

(** The pairs after the first one, as they stand in a query string. *)
Definition more_pairs (pairs : list (string * string)) : string :=
  String.concat "" (map (fun p => "&" +:+ serialize_pair p) pairs).

(** The object without the property [name]. *)
Definition without (name : string) (o : Object) : Object :=
  List.filter (fun kv => negb (String.eqb (fst kv) name)) o.

(** [value === undefined || value === null]. *)
Definition absent (value : Param) : bool :=
  match value with
  | PUndefined | PNull => true
  | _ => false
  end.

(** Specification, 4.1 and 8: the query that the mapping of [k] to the
    array [xs] is said to yield, the elements percent-encoded and the comma
    between them left as it is. *)
Definition QueryEncoder_array_spec (k : string) (xs : list Param) : string :=
  "?" +:+ urlencode k +:+ "=" +:+
  String.concat "," (map (fun x => urlencode (element_string x)) xs).

(** *** The world of an [async] function

    [fetch] is the boundary: given the URL and the request, the remote site
    (an arbitrary state [Remote]) answers with a response, or the call
    throws (no response reached). [SyntaxError_message] is the message the
    engine gives the [SyntaxError] of [response.json()] on a body that is
    not JSON. The success messages of the update handlers are templated
    from the resource returned ([describe], by tool name); they may throw
    on a resource of an unexpected shape. *)
Section Remote.

Context {Remote : Type}.
Variable fetch : string -> RequestInit -> Remote -> (Thrown + Response) * Remote.
Variable SyntaxError_message : string -> string.
Variable describe : string -> Value -> Outcome string.

(** [process.env], the module-level [wpClient] cache of [index.ts], the
    remote site, and the requests sent so far (URL and init, oldest first). *)
Record World := {
  env : gmap string string;
  wpClient : option WordPressClient;
  remote : Remote;
  sent : list (string * RequestInit)
}.

(** The URLs requested so far. *)
Definition urls (w : World) : list string := map fst (sent w).

Definition Async (A : Type) : Type := World -> Outcome A * World.

Definition resolve {A : Type} (a : A) : Async A := fun w => (Fulfilled a, w).

Definition throw {A : Type} (t : Thrown) : Async A := fun w => (Rejected t, w).

Definition bind {A B : Type} (m : Async A) (k : A -> Async B) : Async B :=
  fun w =>
    match m w with
    | (Fulfilled a, w') => k a w'
    | (Rejected t, w') => (Rejected t, w')
    end.

Definition settle {A : Type} (o : Outcome A) : Async A := fun w => (o, w).

Notation "'await' x ':=' m 'in' k" := (bind m (fun x => k))
  (at level 10, x name, m at level 100, k at level 200).

(** [await fetch(url, init)]. *)
Definition do_fetch (url : string) (init : RequestInit) : Async Response :=
  fun w =>
    let (r, remote') := fetch url init (remote w) in
    (match r with
     | inl t => Rejected t
     | inr response => Fulfilled response
     end,
     {| env := env w; wpClient := wpClient w; remote := remote';
        sent := sent w ++ [(url, init)] |}).

(** [response.json()]. *)
Definition response_json (response : Response) : Async Value :=
  match JSON_parse (text response) with
  | Some v => resolve v
  | None => throw (ErrorObject "SyntaxError" (SyntaxError_message (text response)))
  end.

Definition resolve_url (this : WordPressClient) (endpoint : string) : string :=
  if startsWith "http" endpoint then endpoint else apiBase this +:+ endpoint.

Definition json_headers (this : WordPressClient) (options : RequestInit)
  : list (string * string) :=
  spread [("Authorization", getAuthHeader this); ("Content-Type", "application/json")]
         (headers options).

Definition request (this : WordPressClient) (endpoint : string) (options : RequestInit)
  : Async Value :=
  let url := resolve_url this endpoint in
  let headers := json_headers this options in
  await response := do_fetch url {| method := method options; headers := headers;
                                    body := body options |} in
  if negb (ok response) then
    let errorBody := text response in
    let errorMessage := parsed_errorMessage errorBody in
    throw (api_error (status response) errorMessage)
  else response_json response.

Definition requestWithHeaders (this : WordPressClient) (endpoint : string)
  (options : RequestInit) : Async WPListResponse :=
  let url := resolve_url this endpoint in
  let headers := json_headers this options in
  await response := do_fetch url {| method := method options; headers := headers;
                                    body := body options |} in
  if negb (ok response) then
    let errorBody := text response in
    let errorMessage := parsed_errorMessage errorBody in
    throw (api_error (status response) errorMessage)
  else
    await data := response_json response in
    let total := header_count response "x-wp-total" in
    let totalPages := header_count response "x-wp-totalpages" in
    resolve {| data := data; total := total; totalPages := totalPages |}.

(** The default [options = {}]. *)
Definition no_options : RequestInit :=
  {| method := None; headers := []; body := None |}.

Definition with_method (m : string) (b : option Body) : RequestInit :=
  {| method := Some m; headers := []; body := b |}.

(** [JSON.stringify(input)] as a request body. *)
Definition json_body (input : Object) : option Body :=
  option_map TextBody (JSON_stringify (JObj (map (fun kv => (fst kv, to_value (snd kv))) input))).

(** **** Lists: [{ per_page: n, ...params }], with [params = {}] by default *)

Definition listPosts (this : WordPressClient) (params : option Object) : Async WPListResponse :=
  let query := buildQueryString (spread [("per_page", PInt 20)] (default [] params)) in
  requestWithHeaders this ("/posts" +:+ query) no_options.

Definition listPages (this : WordPressClient) (params : option Object) : Async WPListResponse :=
  let query := buildQueryString (spread [("per_page", PInt 20)] (default [] params)) in
  requestWithHeaders this ("/pages" +:+ query) no_options.

Definition listComments (this : WordPressClient) (params : option Object) : Async WPListResponse :=
  let query := buildQueryString (spread [("per_page", PInt 20)] (default [] params)) in
  requestWithHeaders this ("/comments" +:+ query) no_options.

Definition listMedia (this : WordPressClient) (params : option Object) : Async WPListResponse :=
  let query := buildQueryString (spread [("per_page", PInt 20)] (default [] params)) in
  requestWithHeaders this ("/media" +:+ query) no_options.

Definition listCategories (this : WordPressClient) (params : option Object) : Async WPListResponse :=
  let query := buildQueryString (spread [("per_page", PInt 100)] (default [] params)) in
  requestWithHeaders this ("/categories" +:+ query) no_options.

Definition listTags (this : WordPressClient) (params : option Object) : Async WPListResponse :=
  let query := buildQueryString (spread [("per_page", PInt 100)] (default [] params)) in
  requestWithHeaders this ("/tags" +:+ query) no_options.

Definition listUsers (this : WordPressClient) : Async WPListResponse :=
  requestWithHeaders this "/users" no_options.

(** The six list operations that take parameters, with their paths and
    the page sizes they start from. *)
Inductive ListOperation := Posts | Pages | Comments | Media | Categories | Tags.

Definition list_operation (op : ListOperation)
  : WordPressClient -> option Object -> Async WPListResponse :=
  match op with
  | Posts => listPosts
  | Pages => listPages
  | Comments => listComments
  | Media => listMedia
  | Categories => listCategories
  | Tags => listTags
  end.

Definition list_path (op : ListOperation) : string :=
  match op with
  | Posts => "/posts"
  | Pages => "/pages"
  | Comments => "/comments"
  | Media => "/media"
  | Categories => "/categories"
  | Tags => "/tags"
  end.

Definition default_per_page (op : ListOperation) : Z :=
  match op with
  | Posts | Pages | Comments | Media => 20
  | Categories | Tags => 100
  end.

(** **** Updates: a POST of the JSON input to the resource *)

Definition updatePost (this : WordPressClient) (postId : Number) (input : Object) : Async Value :=
  request this ("/posts/" +:+ Number_toString postId) (with_method "POST" (json_body input)).

Definition updatePage (this : WordPressClient) (pageId : Number) (input : Object) : Async Value :=
  request this ("/pages/" +:+ Number_toString pageId) (with_method "POST" (json_body input)).

Definition updateComment (this : WordPressClient) (commentId : Number) (input : Object)
  : Async Value :=
  request this ("/comments/" +:+ Number_toString commentId) (with_method "POST" (json_body input)).

Definition updateMedia (this : WordPressClient) (mediaId : Number) (options : Object)
  : Async Value :=
  request this ("/media/" +:+ Number_toString mediaId) (with_method "POST" (json_body options)).

Definition updateSettings (this : WordPressClient) (settings : Object) : Async Value :=
  request this "/settings" (with_method "POST" (json_body settings)).

(** **** Deletes: [force] defaults to [false], for media to [true] *)

Definition deletePost (this : WordPressClient) (postId : Number) (force : option bool)
  : Async Value :=
  let query := if default false force then "?force=true" else "" in
  request this ("/posts/" +:+ Number_toString postId +:+ query) (with_method "DELETE" None).

Definition deletePage (this : WordPressClient) (pageId : Number) (force : option bool)
  : Async Value :=
  let query := if default false force then "?force=true" else "" in
  request this ("/pages/" +:+ Number_toString pageId +:+ query) (with_method "DELETE" None).

Definition deleteComment (this : WordPressClient) (commentId : Number) (force : option bool)
  : Async Value :=
  let query := if default false force then "?force=true" else "" in
  request this ("/comments/" +:+ Number_toString commentId +:+ query) (with_method "DELETE" None).

Definition deleteMedia (this : WordPressClient) (mediaId : Number) (force : option bool)
  : Async Value :=
  request this
    ("/media/" +:+ Number_toString mediaId +:+ "?force=" +:+
     (if default true force then "true" else "false"))
    (with_method "DELETE" None).

(** **** Media upload: a multipart form, and an error path of its own *)

Record UploadOptions := {
  title : option string;
  caption : option string;
  description : option string;
  alt_text : option string;
  post : option Number
}.

(** [if (options.f) formData.append(name, options.f)]; [append] takes
    the value as a [USVString]. *)
Definition append_text (name : string) (field : option string) (form : list FormEntry)
  : list FormEntry :=
  match field with
  | Some s => if String.eqb s "" then form else form ++ [TextEntry name (USVString s)]
  | None => form
  end.

(** [file: Buffer | Blob]: the bytes of a buffer, or a blob with the type
    it carries. *)
Inductive FileData :=
| BufferData (bytes : string)
| BlobData (bytes type : string).

(** The type of [new Blob(parts, { type })] (File API, 3.1): the empty
    string if a character of [type] lies outside U+0020 to U+007E, else
    [type] in ASCII lower case. *)
Definition blob_type (type : string) : string :=
  if forallb (fun c => (32 <=? code c) && (code c <=? 126)) (list_ascii_of_string type)
  then toLowerCase_ascii type
  else "".

(** [file instanceof Blob ? file : new Blob([new Uint8Array(file)], { type })]
    with [type: contentType], then [formData.append('file', blob, filename)]:
    the entry is a file with the bytes and the type of the blob, under the
    given file name. *)
Definition file_entry (file : FileData) (filename contentType : string) : FormEntry :=
  match file with
  | BufferData bytes => FileEntry "file" bytes (blob_type contentType) (USVString filename)
  | BlobData bytes type => FileEntry "file" bytes type (USVString filename)
  end.

Definition uploadMedia (this : WordPressClient) (file : FileData)
  (filename contentType : string) (options : UploadOptions) : Async Value :=
  let formData := [file_entry file filename contentType] in
  let formData := append_text "title" (title options) formData in
  let formData := append_text "caption" (caption options) formData in
  let formData := append_text "description" (description options) formData in
  let formData := append_text "alt_text" (alt_text options) formData in
  let formData :=
    match post options with
    | Some n =>
        if truthy (JNum n) then formData ++ [TextEntry "post" (Number_toString n)]
        else formData
    | None => formData
    end in
  await response := do_fetch (apiBase this +:+ "/media")
                      {| method := Some "POST";
                         headers := [("Authorization", getAuthHeader this)];
                         body := Some (FormBody formData) |} in
  if negb (ok response) then
    let errorBody := text response in
    throw (ErrorObject "Error"
             ("WordPress API error (" +:+ Number_toString (Dec (status response) 0) +:+
              "): " +:+ errorBody))
  else response_json response.

(** **** Lookups by slug, terms and the site *)

(** [result.data[0] || null]. *)
Definition first_or_null (data : Value) : Async Value :=
  match index0 data with
  | Some x => resolve (or_else x JNull)
  | None =>
      throw (ErrorObject "TypeError"
               ("Cannot read properties of " +:+
                (match data with JNull => "null" | _ => "undefined" end) +:+
                " (reading '0')"))
  end.

Definition getPostBySlug (this : WordPressClient) (slug : string) : Async Value :=
  match encodeURIComponent slug with
  | None => throw (ErrorObject "URIError" "URI malformed")
  | Some encoded =>
      await result := requestWithHeaders this ("/posts?slug=" +:+ encoded) no_options in
      first_or_null (data result)
  end.

Definition getPageBySlug (this : WordPressClient) (slug : string) : Async Value :=
  match encodeURIComponent slug with
  | None => throw (ErrorObject "URIError" "URI malformed")
  | Some encoded =>
      await result := requestWithHeaders this ("/pages?slug=" +:+ encoded) no_options in
      first_or_null (data result)
  end.

Definition deleteCategory (this : WordPressClient) (categoryId : Number) : Async Value :=
  request this ("/categories/" +:+ Number_toString categoryId +:+ "?force=true")
    (with_method "DELETE" None).

Definition deleteTag (this : WordPressClient) (tagId : Number) : Async Value :=
  request this ("/tags/" +:+ Number_toString tagId +:+ "?force=true")
    (with_method "DELETE" None).

Definition getSiteInfo (this : WordPressClient) : Async Value :=
  request this (siteUrl this +:+ "/wp-json") no_options.

(** *** [createWordPressClient] and the cached client of [index.ts] *)

(** [if (!process.env.NAME)]: unset and empty are alike. *)
Definition env_var (w : World) (name : string) : option string :=
  match env w !! name with
  | Some v => if String.eqb v "" then None else Some v
  | None => None
  end.

Definition createWordPressClient : Async WordPressClient :=
  fun w =>
    match env_var w "WORDPRESS_SITE_URL" with
    | None =>
        throw (ErrorObject "Error" "WORDPRESS_SITE_URL environment variable is required") w
    | Some siteUrl =>
        match env_var w "WORDPRESS_USERNAME" with
        | None =>
            throw (ErrorObject "Error" "WORDPRESS_USERNAME environment variable is required") w
        | Some username =>
            match env_var w "WORDPRESS_APP_PASSWORD" with
            | None =>
                throw (ErrorObject "Error"
                         "WORDPRESS_APP_PASSWORD environment variable is required") w
            | Some appPassword =>
                resolve (new_WordPressClient siteUrl username appPassword) w
            end
        end
    end.

Definition getWordPressClient : Async WordPressClient :=
  fun w =>
    match wpClient w with
    | Some client => (Fulfilled client, w)
    | None =>
        match createWordPressClient w with
        | (Fulfilled client, w') =>
            (Fulfilled client,
             {| env := env w'; wpClient := Some client; remote := remote w';
                sent := sent w' |})
        | (Rejected t, w') => (Rejected t, w')
        end
    end.

(** *** The tool handlers ([registerPostTools] and its siblings) *)
Section Tools.

Variable getClient : Async WordPressClient.

(** [{ content: [{ type: 'text', text }] }]. *)
Inductive ToolResult :=
| TextContent (text : string).

Definition newline : string := String "010"%char "".

(** The arguments of an update tool after [const { id, ...updateData } = args]. *)
Record UpdateArgs := {
  resource_id : Number;
  updateData : Object
}.

Definition is_undefined (p : Param) : bool :=
  match p with
  | PUndefined => true
  | _ => false
  end.

(** [Object.fromEntries(Object.entries(o).filter(([, v]) => v !== undefined))]. *)
Definition without_undefined (o : Object) : Object :=
  List.filter (fun kv => negb (is_undefined (snd kv))) o.

Definition update_post (args : UpdateArgs) : Async ToolResult :=
  await client := getClient in
  let cleanData := without_undefined (updateData args) in
  if (length (map fst cleanData) =? 0)%nat then
    resolve (TextContent "Error: No fields to update were provided.")
  else
    await post := updatePost client (resource_id args) cleanData in
    await text := settle (describe "update_post" post) in
    resolve (TextContent text).

Definition update_page (args : UpdateArgs) : Async ToolResult :=
  await client := getClient in
  let cleanData := without_undefined (updateData args) in
  if (length (map fst cleanData) =? 0)%nat then
    resolve (TextContent "Error: No fields to update were provided.")
  else
    await page := updatePage client (resource_id args) cleanData in
    await text := settle (describe "update_page" page) in
    resolve (TextContent text).

Definition update_media (args : UpdateArgs) : Async ToolResult :=
  await client := getClient in
  let cleanData := without_undefined (updateData args) in
  if (length (map fst cleanData) =? 0)%nat then
    resolve (TextContent "Error: No fields to update were provided.")
  else
    await media := updateMedia client (resource_id args) cleanData in
    await text := settle (describe "update_media" media) in
    resolve (TextContent text).

Definition update_site_settings (args : Object) : Async ToolResult :=
  await client := getClient in
  let cleanData := without_undefined args in
  if (length (map fst cleanData) =? 0)%nat then
    resolve (TextContent "Error: No settings to update were provided.")
  else
    await settings := updateSettings client cleanData in
    await text := settle (describe "update_site_settings" settings) in
    resolve (TextContent text).

(** [z.enum(['approved', 'hold', 'spam', 'trash'])]. *)
Inductive CommentStatus := approved | hold | spam | trash.

Definition status_name (s : CommentStatus) : string :=
  match s with
  | approved => "approved"
  | hold => "hold"
  | spam => "spam"
  | trash => "trash"
  end.

(** [{ id: number; success: boolean; error?: string }]. *)
Record ModerationResult := {
  id : Number;
  success : bool;
  error : option string
}.

(** The body of the [for ... of] loop of [bulk_moderate_comments]: one
    update inside its own [try], pushed onto [results] either way. *)
Fixpoint moderate_each (client : WordPressClient) (status : CommentStatus)
  (comment_ids : list Number) (results : list ModerationResult)
  : World -> list ModerationResult * World :=
  match comment_ids with
  | [] => fun w => (results, w)
  | commentId :: rest => fun w =>
      match updateComment client commentId [("status", PStr (status_name status))] w with
      | (Fulfilled _, w') =>
          moderate_each client status rest
            (results ++ [{| id := commentId; success := true; error := None |}]) w'
      | (Rejected error, w') =>
          moderate_each client status rest
            (results ++ [{| id := commentId; success := false;
                            error := Some (message_of error) |}]) w'
      end
  end.

(** The entry that the outcome of the update of one comment calls for. *)
Definition result_of (commentId : Number) (outcome : Outcome Value) : ModerationResult :=
  match outcome with
  | Fulfilled _ => {| id := commentId; success := true; error := None |}
  | Rejected thrown =>
      {| id := commentId; success := false; error := Some (message_of thrown) |}
  end.

Definition result_value (r : ModerationResult) : Value :=
  JObj ([("id", JNum (id r)); ("success", JBool (success r))] ++
        match error r with
        | Some e => [("error", JStr e)]
        | None => []
        end).

Definition count (n : nat) : string := Number_toString (Dec (Z.of_nat n) 0).

Definition bulk_text (results : list ModerationResult) : string :=
  let successful := length (List.filter (fun r => success r) results) in
  let failed := length (List.filter (fun r => negb (success r)) results) in
  "Bulk moderation complete." +:+ newline +:+ newline +:+
  "Successful: " +:+ count successful +:+ newline +:+
  "Failed: " +:+ count failed +:+ newline +:+ newline +:+
  "Details:" +:+ newline +:+
  match JSON_stringify_2 (JArr (map result_value results)) with
  | Some s => s
  | None => "undefined"
  end.

Definition bulk_moderate_comments (comment_ids : list Number) (status : CommentStatus)
  : Async ToolResult :=
  await client := getClient in
  fun w =>
    let (results, w') := moderate_each client status comment_ids [] w in
    (Fulfilled (TextContent (bulk_text results)), w').

(** **** The delete handlers

    [read] is a property access in a handler and [interpolate] a template
    substitution; both throw a [TypeError] where JavaScript does. *)
Definition read (name : string) (v : Value) : Async Value :=
  match member name v with
  | Some x => resolve x
  | None =>
      throw (ErrorObject "TypeError"
               ("Cannot read properties of " +:+
                (match v with JNull => "null" | _ => "undefined" end) +:+
                " (reading '" +:+ name +:+ "')"))
  end.

Definition interpolate (v : Value) : Async string :=
  match ToString v with
  | Some s => resolve s
  | None => throw (ErrorObject "TypeError" "Cannot convert object to primitive value")
  end.

Definition action_of (force : bool) : string :=
  if force then "permanently deleted" else "moved to trash".

Definition delete_post (post_id : Number) (force : bool) : Async ToolResult :=
  await client := getClient in
  await post := deletePost client post_id (Some force) in
  let action := action_of force in
  await title := read "title" post in
  await rendered := read "rendered" title in
  await shown_title := interpolate rendered in
  await number := read "id" post in
  await shown_id := interpolate number in
  resolve (TextContent ("Post " +:+ quoted shown_title +:+ " (ID: " +:+ shown_id +:+
                        ") has been " +:+ action +:+ ".")).

Definition delete_page (page_id : Number) (force : bool) : Async ToolResult :=
  await client := getClient in
  await page := deletePage client page_id (Some force) in
  let action := action_of force in
  await title := read "title" page in
  await rendered := read "rendered" title in
  await shown_title := interpolate rendered in
  await number := read "id" page in
  await shown_id := interpolate number in
  resolve (TextContent ("Page " +:+ quoted shown_title +:+ " (ID: " +:+ shown_id +:+
                        ") has been " +:+ action +:+ ".")).

Definition delete_comment (comment_id : Number) (force : bool) : Async ToolResult :=
  await client := getClient in
  await comment := deleteComment client comment_id (Some force) in
  let action := action_of force in
  await number := read "id" comment in
  await shown_id := interpolate number in
  resolve (TextContent ("Comment (ID: " +:+ shown_id +:+ ") has been " +:+ action +:+ ".")).

Definition delete_media (media_id : Number) : Async ToolResult :=
  await client := getClient in
  await media := deleteMedia client media_id None in
  await title := read "title" media in
  await rendered := read "rendered" title in
  await shown_title := interpolate rendered in
  await number := read "id" media in
  await shown_id := interpolate number in
  resolve (TextContent ("Media item " +:+ quoted shown_title +:+ " (ID: " +:+ shown_id +:+
                        ") has been permanently deleted." +:+ newline +:+ newline +:+
                        "Note: Any posts or pages using this media will show broken images.")).

End Tools.

End Remote.

End WordPress.

(** ** [src/index.ts]: the API-key middleware and the SSE session registry *)
Module Server.
Import Js.

(** [res.status(code).json({ error, message })]. *)
Record JsonReply := {
  code : Z;
  error : string;
  message : option string
}.

(** What a middleware does: it calls [next()] or it answers. *)
Inductive Middleware :=
| Next
| Respond (reply : JsonReply).

(** [if (h)] on a header or a variable that is a string or [undefined]. *)
Definition present (h : option string) : bool :=
  match h with
  | Some s => negb (String.eqb s "")
  | None => false
  end.

(** [authorization?.startsWith('Bearer ')]. *)
Definition is_bearer (authorization : option string) : bool :=
  match authorization with
  | Some s => startsWith "Bearer " s
  | None => false
  end.

(** [API_KEY] is [process.env.API_KEY]; [headers] are [req.headers], by
    lower-case name. *)
Definition requireApiKey (API_KEY : option string) (headers : gmap string string)
  : Middleware :=
  if negb (present API_KEY) then Next
  else
    let providedKey :=
      if present (headers !! "x-api-key") then headers !! "x-api-key"
      else if is_bearer (headers !! "authorization") then
        option_map (slice 7) (headers !! "authorization")
      else if present (headers !! "authorization") then headers !! "authorization"
      else None in
    if negb (present providedKey) then
      Respond {| code := 401; error := "Unauthorized";
                 message := Some "Missing API key. Provide via X-API-Key header or Authorization: Bearer <token>" |}
    else if negb (bool_decide (providedKey = API_KEY)) then
      Respond {| code := 403; error := "Forbidden"; message := Some "Invalid API key" |}
    else Next.

(** *** The access gate as the specification describes it (4.5)

    Two states, [OPEN] (no secret configured) and [PROTECTED]; in the
    second, a candidate key is looked for in the dedicated header, then in
    a Bearer-prefixed Authorization header (prefix stripped), then in a
    bare Authorization header; no candidate is unauthorized, a candidate
    other than the secret is forbidden. *)
Inductive GateState :=
| OPEN
| PROTECTED (secret : string).

Definition gate_state (API_KEY : option string) : GateState :=
  match API_KEY with
  | Some secret => if String.eqb secret "" then OPEN else PROTECTED secret
  | None => OPEN
  end.

Inductive Verdict := Pass | Unauthorized | Forbidden.

(** The value of a header that is there (and not empty). *)
Definition header_value (headers : gmap string string) (name : string) : option string :=
  match headers !! name with
  | Some v => if String.eqb v "" then None else Some v
  | None => None
  end.

Definition bearer_token (headers : gmap string string) : option string :=
  match headers !! "authorization" with
  | Some v => if startsWith "Bearer " v then Some (slice 7 v) else None
  | None => None
  end.

Definition candidate (headers : gmap string string) : option string :=
  match header_value headers "x-api-key" with
  | Some key => Some key
  | None =>
      match bearer_token headers with
      | Some key => Some key
      | None => header_value headers "authorization"
      end
  end.

Definition AccessGate (state : GateState) (headers : gmap string string) : Verdict :=
  match state with
  | OPEN => Pass
  | PROTECTED secret =>
      match candidate headers with
      | None => Unauthorized
      | Some key => if String.eqb key secret then Pass else Forbidden
      end
  end.

(** How a verdict shows at the boundary. *)
Definition enforce (v : Verdict) : Middleware :=
  match v with
  | Pass => Next
  | Unauthorized =>
      Respond {| code := 401; error := "Unauthorized";
                 message := Some "Missing API key. Provide via X-API-Key header or Authorization: Bearer <token>" |}
  | Forbidden =>
      Respond {| code := 403; error := "Forbidden"; message := Some "Invalid API key" |}
  end.

(** A header value as the HTTP parser delivers it ends in no space or tab
    (RFC 9110, 5.5: the white space around a field value is not part of it). *)
Fixpoint ends_blank (v : string) : bool :=
  match v with
  | EmptyString => false
  | String c EmptyString => (Js.code c =? 32) || (Js.code c =? 9)
  | String _ v' => ends_blank v'
  end.

Definition well_formed (headers : gmap string string) : Prop :=
  map_Forall (fun _ v => ends_blank v = false) headers.

(** An [SSEServerTransport]: the session identifier it minted for itself,
    and the response stream it writes to (which tells the transport
    objects apart). *)
Record SSEServerTransport := {
  sessionId : string;
  res : nat
}.

#[global] Instance SSEServerTransport_eq_dec : EqDecision SSEServerTransport.
Proof. solve_decision. Defined.

(** [sseTransports], the requests that have a ['close'] listener (by their
    transport), and the calls of [transport.close()], oldest first. *)
Record State := {
  sseTransports : gmap string SSEServerTransport;
  listeners : list SSEServerTransport;
  closed : list SSEServerTransport
}.

Definition initial : State :=
  {| sseTransports := ∅; listeners := []; closed := [] |}.

(** What [await server.connect(transport)] does: it returns, or it throws
    (before or after the response headers went out). *)
Inductive ConnectOutcome :=
| Connected
| ConnectFailed (error : Thrown) (headersSent : bool).

(** The handler of [GET /sse] on the transport it has just constructed:
    [None] is no JSON reply (the stream is open, or the headers were sent). *)
Definition sse_handler (transport : SSEServerTransport) (connect : ConnectOutcome)
  (st : State) : State * option JsonReply :=
  let sessionId := sessionId transport in
  let st1 := {| sseTransports := <[sessionId := transport]> (sseTransports st);
                listeners := listeners st; closed := closed st |} in
  match connect with
  | Connected =>
      ({| sseTransports := sseTransports st1;
          listeners := listeners st1 ++ [transport];
          closed := closed st1 |}, None)
  | ConnectFailed error headersSent =>
      (st1,
       if headersSent then None
       else Some {| code := 500; error := "SSE connection failed";
                    message := Some (message_of error) |})
  end.

(** The ['close'] listener: [sseTransports.delete(sessionId); transport.close()]. *)
Definition on_close (transport : SSEServerTransport) (st : State) : State :=
  {| sseTransports := delete (sessionId transport) (sseTransports st);
     listeners := listeners st;
     closed := closed st ++ [transport] |}.

(** The request of a connection closes: its listener runs, if it has one
    (the event is emitted once). *)
Definition disconnect (transport : SSEServerTransport) (st : State) : State :=
  if bool_decide (transport ∈ listeners st) then
    let st' := on_close transport st in
    {| sseTransports := sseTransports st';
       listeners := List.filter (fun t => negb (bool_decide (t = transport))) (listeners st');
       closed := closed st' |}
  else st.

(** [req.query.sessionId]: absent, a string, or (a repeated or bracketed
    parameter) an array or object. *)
Inductive QueryValue :=
| QMissing
| QString (s : string)
| QOther.

(** What [await transport.handlePostMessage(req, res)] does. *)
Inductive PostOutcome :=
| Handled
| HandlerThrew (error : Thrown) (headersSent : bool).

Inductive PostResult :=
| Reply (reply : JsonReply)
| Delivered (transport : SSEServerTransport)
| Unanswered.

Section Messages.

Variable handlePostMessage : SSEServerTransport -> PostOutcome.

(** The handler of [POST /messages]. *)
Definition messages_handler (sessionId : QueryValue) (st : State) : PostResult :=
  let not_found :=
    Reply {| code := 404; error := "Session not found"; message := None |} in
  match sessionId return PostResult with
  | QMissing =>
      Reply {| code := 400; error := "Missing sessionId parameter"; message := None |}
  | QOther => not_found
  | QString s =>
      if String.eqb s "" then
        Reply {| code := 400; error := "Missing sessionId parameter"; message := None |}
      else
        match sseTransports st !! s with
        | None => not_found
        | Some transport =>
            match handlePostMessage transport with
            | Handled => Delivered transport
            | HandlerThrew error headersSent =>
                if headersSent then Unanswered
                else Reply {| code := 500; error := "Message handling failed";
                              message := Some (message_of error) |}
            end
        end
  end.

Definition not_found : PostResult :=
  Reply {| code := 404; error := "Session not found"; message := None |}.

(** [app.post('/messages', requireApiKey, handler)]. *)
Definition post_messages (API_KEY : option string) (headers : gmap string string)
  (sessionId : QueryValue) (st : State) : PostResult :=
  match requireApiKey API_KEY headers with
  | Next => messages_handler sessionId st
  | Respond reply => Reply reply
  end.

End Messages.

(** [GET /health]: the body of the reply. [hasCredentials] is
    [!!(SITE_URL && USERNAME && APP_PASSWORD)] on [process.env]. *)
Record Health := {
  health_status : string;
  server_name : string;
  version : string;
  hasCredentials : bool;
  apiKeyProtected : bool
}.

Definition health (env : gmap string string) (API_KEY : option string) : Health :=
  {| health_status := "ok";
     server_name := "wordpress-mcp";
     version := "1.0.0";
     hasCredentials :=
       present (env !! "WORDPRESS_SITE_URL") && present (env !! "WORDPRESS_USERNAME") &&
       present (env !! "WORDPRESS_APP_PASSWORD");
     apiKeyProtected := present API_KEY |}.

(** [app.get('/sse', requireApiKey, handler)]. *)
Definition get_sse (API_KEY : option string) (headers : gmap string string)
  (transport : SSEServerTransport) (connect : ConnectOutcome) (st : State)
  : State * option JsonReply :=
  match requireApiKey API_KEY headers with
  | Next => sse_handler transport connect st
  | Respond reply => (st, Some reply)
  end.

(** The states the registry can be in: connections open (each with the
    transport constructed for it) and requests close, in any order. *)
Inductive Event :=
| Open (transport : SSEServerTransport) (connect : ConnectOutcome)
| Close (transport : SSEServerTransport).

Definition apply_event (st : State) (e : Event) : State :=
  match e with
  | Open transport connect => fst (sse_handler transport connect st)
  | Close transport => disconnect transport st
  end.

Definition after (events : list Event) : State := fold_left apply_event events initial.

Definition reachable (st : State) : Prop := exists events, after events = st.

(** *** Open sessions, as the specification counts them (SessionRegistry)

    A session is open from the moment its connection is established
    ([server.connect] returned) until the request of that connection
    closes. [currently_open] does not look at the registry: it is what
    the registry is compared with. *)
Definition currently_open (events : list Event) : list SSEServerTransport :=
  fold_left
    (fun open e =>
       match e with
       | Open transport Connected => open ++ [transport]
       | Open _ (ConnectFailed _ _) => open
       | Close transport => List.filter (fun t => negb (bool_decide (t = transport))) open
       end)
    events [].

Definition is_open (events : list Event) (id : string) : Prop :=
  exists transport, In transport (currently_open events) /\ sessionId transport = id.

(** The transports of the connections opened so far, oldest first. *)
Definition opened (events : list Event) : list SSEServerTransport :=
  flat_map (fun e => match e with
                     | Open transport _ => [transport]
                     | Close _ => []
                     end) events.

(** [server.connect] returned for every connection opened. *)
Definition connects_return (events : list Event) : Prop :=
  forall transport connect, In (Open transport connect) events -> connect = Connected.

End Server.

(** ** Concrete sites and requests, for the statements about particular inputs *)
Module Scenario.
Import Js WordPress.

(** A site that gives every request the same response. *)
Definition always (response : Response)
  : string -> RequestInit -> unit -> (Thrown + Response) * unit :=
  fun _ _ u => (inr response, u).

Definition no_message : string -> string := fun _ => "Unexpected token".

Definition no_description : string -> Value -> Outcome string :=
  fun _ _ => Fulfilled "updated".

Definition client : WordPressClient :=
  new_WordPressClient "https://example.com/" "admin" "pw".

Definition world : World :=
  {| env := ∅; wpClient := Some client; remote := tt; sent := [] |}.

(** A process without credentials in its environment, and no client yet. *)
Definition unconfigured : World :=
  {| env := ∅; wpClient := None; remote := tt; sent := [] |}.

(** The body [{"message":"bad request","code":"rest_invalid"}]. *)
Definition rest_invalid_body : string :=
  "{" +:+ quoted "message" +:+ ":" +:+ quoted "bad request" +:+ "," +:+
  quoted "code" +:+ ":" +:+ quoted "rest_invalid" +:+ "}".

Definition bad_request : Response :=
  {| status := 400; response_headers := ∅; text := rest_invalid_body |}.

Definition no_upload_options : UploadOptions :=
  {| title := None; caption := None; description := None; alt_text := None;
     post := None |}.

(** A list response whose [x-wp-total] header is not a number. *)
Definition malformed_total : Response :=
  {| status := 200;
     response_headers := <["x-wp-total" := "abc"]> (<["x-wp-totalpages" := "3"]> ∅);
     text := "[]" |}.

(** A list response that announces 42 items on 3 pages. *)
Definition three_pages : Response :=
  {| status := 200;
     response_headers := <["x-wp-total" := "42"]> (<["x-wp-totalpages" := "3"]> ∅);
     text := "[]" |}.

(** A site on which the comments 2 and 5 cannot be updated (it answers
    403 with a REST error) and every other request succeeds. *)
Definition rest_forbidden_body : string :=
  "{" +:+ quoted "code" +:+ ":" +:+ quoted "rest_forbidden" +:+ "," +:+
  quoted "message" +:+ ":" +:+ quoted "Sorry, you are not allowed to edit this comment." +:+
  "}".

Definition two_and_five_fail
  : string -> RequestInit -> unit -> (Thrown + Response) * unit :=
  fun url _ u =>
    if String.eqb url "https://example.com/wp-json/wp/v2/comments/2"
       || String.eqb url "https://example.com/wp-json/wp/v2/comments/5"
    then (inr {| status := 403; response_headers := ∅; text := rest_forbidden_body |}, u)
    else (inr {| status := 200; response_headers := ∅; text := "{}" |}, u).

Definition six_comments : list Number :=
  [Dec 1 0; Dec 2 0; Dec 3 0; Dec 4 0; Dec 5 0; Dec 6 0].

(** The summary of the moderation of the six comments on that site. *)
Definition summary_of_six : string :=
  String.concat (String "010"%char "")
    ["Bulk moderation complete.";
     "";
     "Successful: 4";
     "Failed: 2";
     "";
     "Details:";
     "[";
     "  {";
     "    " +:+ quoted "id" +:+ ": 1,";
     "    " +:+ quoted "success" +:+ ": true";
     "  },";
     "  {";
     "    " +:+ quoted "id" +:+ ": 2,";
     "    " +:+ quoted "success" +:+ ": false,";
     "    " +:+ quoted "error" +:+ ": " +:+ quoted "WordPress API error (403): Sorry, you are not allowed to edit this comment.";
     "  },";
     "  {";
     "    " +:+ quoted "id" +:+ ": 3,";
     "    " +:+ quoted "success" +:+ ": true";
     "  },";
     "  {";
     "    " +:+ quoted "id" +:+ ": 4,";
     "    " +:+ quoted "success" +:+ ": true";
     "  },";
     "  {";
     "    " +:+ quoted "id" +:+ ": 5,";
     "    " +:+ quoted "success" +:+ ": false,";
     "    " +:+ quoted "error" +:+ ": " +:+ quoted "WordPress API error (403): Sorry, you are not allowed to edit this comment.";
     "  },";
     "  {";
     "    " +:+ quoted "id" +:+ ": 6,";
     "    " +:+ quoted "success" +:+ ": true";
     "  }";
     "]"].

(** An update with every field left out. *)
Definition no_fields : UpdateArgs :=
  {| resource_id := Dec 7 0;
     updateData := [("title", PUndefined); ("content", PUndefined); ("status", PUndefined)] |}.

(** An update of the title alone. *)
Definition new_title : UpdateArgs :=
  {| resource_id := Dec 7 0;
     updateData := [("title", PStr "New"); ("content", PUndefined)] |}.

(** The answer to a forced deletion: [{"deleted":true,"previous":{"id":7}}]. *)
Definition forced_deletion : Response :=
  {| status := 200;
     response_headers := ∅;
     text := "{" +:+ quoted "deleted" +:+ ":true," +:+ quoted "previous" +:+ ":{" +:+
             quoted "id" +:+ ":7}}" |}.

(** Two transports that minted the same session identifier. *)
Definition first_transport : Server.SSEServerTransport :=
  {| Server.sessionId := "6f1c"; Server.res := 1 |}.

Definition second_transport : Server.SSEServerTransport :=
  {| Server.sessionId := "6f1c"; Server.res := 2 |}.

Definition handles_all : Server.SSEServerTransport -> Server.PostOutcome :=
  fun _ => Server.Handled.

End Scenario.

(** * Properties *)

Import Js WordPress.

(** ** The request executor *)
Section Executor.

Context {Remote : Type}.
Variable fetch : string -> RequestInit -> Remote -> (Thrown + Response) * Remote.
Variable SyntaxError_message : string -> string.

#[local] Abbreviation request := (request fetch SyntaxError_message).
#[local] Abbreviation requestWithHeaders := (requestWithHeaders fetch SyntaxError_message).
#[local] Abbreviation uploadMedia := (uploadMedia fetch SyntaxError_message).

Lemma response_json_world (response : Response) (w : @World Remote) :
  snd (response_json SyntaxError_message response w) = w.
Proof.
  unfold response_json. destruct (JSON_parse (text response)); reflexivity.
Qed.

(** Every call of [request] sends exactly one request, to the resolved URL
    and with the JSON headers, whatever the answer. *)
Lemma request_world (this : WordPressClient) (endpoint : string) (options : RequestInit)
  (w : World) :
  let init := {| method := method options; headers := json_headers this options;
                 body := body options |} in
  snd (request this endpoint options w) =
  {| env := env w; wpClient := wpClient w;
     remote := snd (fetch (resolve_url this endpoint) init (remote w));
     sent := sent w ++ [(resolve_url this endpoint, init)] |}.
Proof.
  unfold WordPress.request, bind, do_fetch. simpl.
  destruct (fetch _ _ (remote w)) as [[t | response] remote']; simpl; [reflexivity |].
  destruct (ok response); simpl; [apply response_json_world | reflexivity].
Qed.

Lemma request_urls (this : WordPressClient) (endpoint : string) (options : RequestInit)
  (w : World) :
  urls (snd (request this endpoint options w)) = urls w ++ [resolve_url this endpoint].
Proof.
  unfold urls. rewrite request_world. simpl. rewrite map_app. reflexivity.
Qed.

(** On a response that is not 2xx, [request] rejects with the status and
    the message extracted from the body, which it has read in full. *)
Lemma request_rejects (this : WordPressClient) (endpoint : string) (options : RequestInit)
  (w : World) (response : Response) (remote' : Remote) :
  fetch (resolve_url this endpoint)
        {| method := method options; headers := json_headers this options;
           body := body options |} (remote w) = (inr response, remote') ->
  ok response = false ->
  fst (request this endpoint options w) =
  Rejected (api_error (status response) (parsed_errorMessage (text response))).
Proof.
  intros Hfetch Hok. unfold WordPress.request, bind, do_fetch.
  rewrite Hfetch. simpl. rewrite Hok. reflexivity.
Qed.

Lemma requestWithHeaders_rejects (this : WordPressClient) (endpoint : string)
  (options : RequestInit) (w : World) (response : Response) (remote' : Remote) :
  fetch (resolve_url this endpoint)
        {| method := method options; headers := json_headers this options;
           body := body options |} (remote w) = (inr response, remote') ->
  ok response = false ->
  fst (requestWithHeaders this endpoint options w) =
  Rejected (api_error (status response) (parsed_errorMessage (text response))).
Proof.
  intros Hfetch Hok. unfold WordPress.requestWithHeaders, bind, do_fetch.
  rewrite Hfetch. simpl. rewrite Hok. reflexivity.
Qed.

(** The media upload has an error path of its own: the message is the raw
    body, which is never parsed. *)
Lemma uploadMedia_rejects (this : WordPressClient) (file : FileData)
  (filename contentType : string)
  (options : UploadOptions) (w : World) (response : Response) :
  (forall init, fst (fetch (apiBase this +:+ "/media") init (remote w)) = inr response) ->
  ok response = false ->
  fst (uploadMedia this file filename contentType options w) =
  Rejected (ErrorObject "Error"
              ("WordPress API error (" +:+ Number_toString (Dec (status response) 0) +:+
               "): " +:+ text response)).
Proof.
  intros Hfetch Hok. unfold WordPress.uploadMedia, bind, do_fetch.
  match goal with |- context [fetch ?u ?i ?r] =>
    specialize (Hfetch i); destruct (fetch u i r) as [x remote'] end.
  simpl in Hfetch. subst x. simpl. rewrite Hok. reflexivity.
Qed.

End Executor.

(** The message extracted from an error body that is a JSON object: its
    [message] if truthy, else its [code] if truthy, else the raw body. *)
Lemma parsed_errorMessage_object (errorBody : string) (members : list (string * Value)) :
  JSON_parse errorBody = Some (JObj members) ->
  parsed_errorMessage errorBody =
  let field name := match assoc name members with Some v => v | None => JUndefined end in
  if truthy (field "message") then field "message"
  else if truthy (field "code") then field "code"
  else JStr errorBody.
Proof.
  intros Hparse. unfold parsed_errorMessage. rewrite Hparse. simpl.
  unfold or_else.
  destruct (truthy (match assoc "message" members with Some v => v | None => JUndefined end)) eqn:Hm.
  - rewrite Hm. reflexivity.
  - destruct (truthy (match assoc "code" members with Some v => v | None => JUndefined end));
      reflexivity.
Qed.

(** A body that is not JSON is the message as it stands. *)
Lemma parsed_errorMessage_raw (errorBody : string) :
  JSON_parse errorBody = None -> parsed_errorMessage errorBody = JStr errorBody.
Proof. intros Hparse. unfold parsed_errorMessage. rewrite Hparse. reflexivity. Qed.

(** The three bodies of the specification's examples. *)
Example errorMessage_message_first :
  parsed_errorMessage Scenario.rest_invalid_body = JStr "bad request".
Proof. vm_compute. reflexivity. Qed.

Example errorMessage_code_second :
  parsed_errorMessage ("{" +:+ quoted "code" +:+ ":" +:+ quoted "rest_forbidden" +:+ "}")
  = JStr "rest_forbidden".
Proof. vm_compute. reflexivity. Qed.

Example errorMessage_raw_last : parsed_errorMessage "oops" = JStr "oops".
Proof. vm_compute. reflexivity. Qed.

(** C1 (the code departs from the claim). The claim gives every HTTP call
    of the REST layer, the multipart media upload included, the message
    priority [message], then [code], then the raw body. On the response
    400 with body [{"message":"bad request","code":"rest_invalid"}],
    [uploadMedia] rejects with the raw body as the message, where [request]
    (here through [updateMedia]) rejects with [bad request]. *)
Theorem uploadMedia_error_is_raw_body :
  fst (uploadMedia (Scenario.always Scenario.bad_request) Scenario.no_message
         Scenario.client (BufferData "PNG") "a.png" "image/png"
         Scenario.no_upload_options Scenario.world)
  = Rejected (ErrorObject "Error"
                ("WordPress API error (400): " +:+ Scenario.rest_invalid_body))
  /\ fst (updateMedia (Scenario.always Scenario.bad_request) Scenario.no_message
            Scenario.client (Dec 7 0) [("title", PStr "x")] Scenario.world)
     = Rejected (ErrorObject "Error" "WordPress API error (400): bad request").
Proof. split; vm_compute; reflexivity. Qed.

(** ** Pagination headers *)

(** A missing header, and an empty one, count as [0]. *)
Lemma header_count_missing (response : Response) (name : string) :
  response_headers response !! name = None ->
  header_count response name = Dec 0 0.
Proof. intros H. unfold header_count. rewrite H. reflexivity. Qed.

Lemma header_count_empty (response : Response) (name : string) :
  response_headers response !! name = Some "" ->
  header_count response name = Dec 0 0.
Proof. intros H. unfold header_count. rewrite H. reflexivity. Qed.

(** A header whose first character is not a digit, a sign or white space
    is read as [NaN]. *)
Lemma header_count_malformed (response : Response) (name : string) (c : ascii) (rest : string) :
  response_headers response !! name = Some (String c rest) ->
  digit c = None -> is_StrWhiteSpaceChar c = false ->
  c <> "-"%char -> c <> "+"%char ->
  header_count response name = NaN.
Proof.
  intros H Hd Hw Hm Hp. unfold header_count. rewrite H.
  change (String.eqb (String c rest) "") with false. cbv iota.
  unfold parseInt10. simpl trim_start. rewrite Hw.
  assert (Hbody : (let (sign, body) :=
            match String c rest with
            | String "-"%char t' => (-1, t')
            | String "+"%char t' => (1, t')
            | _ => (1, String c rest)
            end in
          match digits_value false 0 body with
          | Some n => to_binary64 (sign * n)
          | None => NaN
          end) = NaN).
  { destruct (Ascii.eqb_spec c "-") as [-> | Hc1]; [congruence |].
    destruct (Ascii.eqb_spec c "+") as [-> | Hc2]; [congruence |].
    destruct c as [[] [] [] [] [] [] [] []]; try congruence;
      simpl digits_value; simpl in Hd; try discriminate Hd; try reflexivity. }
  exact Hbody.
Qed.

Example header_count_of_numbers :
  header_count {| status := 200;
                  response_headers := <["x-wp-total" := "42"]> (<["x-wp-totalpages" := "3"]> ∅);
                  text := "[]" |} "x-wp-total" = Dec 42 0.
Proof. vm_compute. reflexivity. Qed.

(** C2 (the code departs from the claim). The claim resolves a malformed
    [x-wp-total] such as [abc] to [0]. On a 200 response with the headers
    [x-wp-total: abc] and [x-wp-totalpages: 3], [requestWithHeaders]
    (through [listPosts]) is fulfilled with [total = NaN]: nothing is
    thrown, and the value is not an integer. *)
Theorem malformed_total_is_NaN :
  fst (listPosts (Scenario.always Scenario.malformed_total) Scenario.no_message
         Scenario.client None Scenario.world)
  = Fulfilled {| data := JArr []; total := NaN; totalPages := Dec 3 0 |}.
Proof. vm_compute. reflexivity. Qed.

(** ** The query encoder *)

Lemma append_cons (x : ascii) (a b : string) : String x a +:+ b = String x (a +:+ b).
Proof. reflexivity. Qed.

Lemma append_assoc (a b c : string) : (a +:+ b) +:+ c = a +:+ (b +:+ c).
Proof.
  induction a as [| x a IH]; [reflexivity |].
  rewrite !append_cons. now rewrite IH.
Qed.

Lemma append_empty_r (a : string) : a +:+ "" = a.
Proof.
  induction a as [| x a IH]; [reflexivity |].
  rewrite append_cons. now rewrite IH.
Qed.

Lemma urlencode_app (a b : string) :
  urlencode (a +:+ b) = urlencode a +:+ urlencode b.
Proof.
  induction a as [| x a IH]; [reflexivity |].
  change (urlencode (String x a +:+ b)) with (urlencoded_byte x +:+ urlencode (a +:+ b)).
  change (urlencode (String x a)) with (urlencoded_byte x +:+ urlencode a).
  rewrite IH, append_assoc. reflexivity.
Qed.

(** Encoding a comma-separated value encodes each part and writes every
    separating comma as [%2C]. *)
Lemma urlencode_concat_comma (l : list string) :
  urlencode (String.concat "," l) = String.concat "%2C" (map urlencode l).
Proof.
  induction l as [| x l IH]; [reflexivity |].
  destruct l as [| y l]; [reflexivity |].
  change (String.concat "," (x :: y :: l)) with (x +:+ "," +:+ String.concat "," (y :: l)).
  change (String.concat "%2C" (map urlencode (x :: y :: l)))
    with (urlencode x +:+ "%2C" +:+ String.concat "%2C" (map urlencode (y :: l))).
  rewrite urlencode_app. rewrite <- IH. reflexivity.
Qed.

Lemma contains_app (c : ascii) (a b : string) :
  contains c (a +:+ b) = contains c a || contains c b.
Proof.
  induction a as [| x a IH]; [reflexivity |].
  rewrite append_cons. simpl. rewrite IH. apply orb_assoc.
Qed.

Lemma urlencoded_byte_no_comma (c : ascii) : contains "," (urlencoded_byte c) = false.
Proof. destruct c as [[] [] [] [] [] [] [] []]; vm_compute; reflexivity. Qed.

Lemma urlencode_no_comma (s : string) : contains "," (urlencode s) = false.
Proof.
  induction s as [| c s IH]; [reflexivity |].
  change (urlencode (String c s)) with (urlencoded_byte c +:+ urlencode s).
  rewrite contains_app, urlencoded_byte_no_comma, IH. reflexivity.
Qed.

Lemma concat_no_comma (sep : string) (l : list string) :
  contains "," sep = false ->
  Forall (fun x => contains "," x = false) l ->
  contains "," (String.concat sep l) = false.
Proof.
  intros Hsep Hl. induction Hl as [| x l Hx Hl IH]; [reflexivity |].
  destruct l as [| y l]; [exact Hx |].
  change (String.concat sep (x :: y :: l)) with (x +:+ sep +:+ String.concat sep (y :: l)).
  rewrite !contains_app, Hx, Hsep, IH. reflexivity.
Qed.

Lemma serialize_pair_no_comma (p : string * string) :
  contains "," (serialize_pair p) = false.
Proof.
  unfold serialize_pair. rewrite !contains_app, !urlencode_no_comma. reflexivity.
Qed.

(** No query string that [buildQueryString] returns has a comma in it. *)
Lemma buildQueryString_no_comma (params : Object) :
  contains "," (buildQueryString params) = false.
Proof.
  unfold buildQueryString, searchParams_toString.
  destruct (String.eqb _ ""); [reflexivity |].
  simpl. apply concat_no_comma; [reflexivity |].
  apply List.Forall_forall. intros x Hx. apply in_map_iff in Hx as [p [<- _]].
  apply serialize_pair_no_comma.
Qed.

Lemma searchParams_set_fresh (name value : string) (l : list (string * string)) :
  ~ In name (map fst l) -> searchParams_set name value l = l ++ [(name, value)].
Proof.
  induction l as [| [n v] l IH]; simpl; intros Hfresh; [reflexivity |].
  destruct (String.eqb_spec n name) as [-> | Hne]; [tauto |].
  rewrite IH; [reflexivity | tauto].
Qed.

Lemma fold_contributed (params : Object) (acc : list (string * string)) :
  List.NoDup (map fst params) ->
  (forall k, In k (map fst acc) -> ~ In k (map fst params)) ->
  fold_left
    (fun searchParams kv =>
       match query_value (snd kv) with
       | Some s => searchParams_set (fst kv) s searchParams
       | None => searchParams
       end) params acc
  = acc ++ contributed params.
Proof.
  revert acc. induction params as [| [k v] params IH]; intros acc Hnodup Hacc; simpl.
  - now rewrite app_nil_r.
  - inversion Hnodup as [| ? ? Hk Hrest]; subst.
    destruct (query_value v) as [s |] eqn:Hv; simpl.
    + rewrite searchParams_set_fresh.
      * rewrite IH; [now rewrite <- app_assoc | exact Hrest |].
        intros k' Hk'. rewrite map_app, in_app_iff in Hk'. simpl in Hk'.
        destruct Hk' as [Hk' | [<- | []]]; [| exact Hk].
        intros Hin. apply (Hacc k' Hk'). simpl. tauto.
      * intros Hin. apply (Hacc k Hin). simpl. tauto.
    + apply IH; [exact Hrest |].
      intros k' Hk' Hin. apply (Hacc k' Hk'). simpl. tauto.
Qed.

(** On an object (no key twice), the pairs are those its entries
    contribute, in the order of the entries. *)
Lemma query_pairs_contributed (params : Object) :
  List.NoDup (map fst params) -> query_pairs params = contributed params.
Proof.
  intros Hnodup. unfold query_pairs. rewrite fold_contributed; auto.
Qed.

Lemma contributed_app (l1 l2 : Object) :
  contributed (l1 ++ l2) = contributed l1 ++ contributed l2.
Proof. unfold contributed. apply flat_map_app. Qed.

Lemma contributed_keys (l : Object) (p : string * string) :
  In p (contributed l) -> In (fst p) (map fst l).
Proof.
  unfold contributed. rewrite in_flat_map. intros [[k v] [Hin Hp]].
  simpl in Hp. destruct (query_value v); [| contradiction].
  destruct Hp as [<- | []]. simpl.
  apply in_map_iff. exists (k, v). auto.
Qed.

Lemma serialized_nonempty (pairs : list (string * string)) :
  pairs <> [] -> String.eqb (searchParams_toString pairs) "" = false.
Proof.
  intros Hne. destruct pairs as [| [n v] pairs]; [congruence |].
  unfold searchParams_toString.
  assert (Hhead : forall rest, (serialize_pair (n, v) +:+ rest) <> "").
  { intros rest. unfold serialize_pair. simpl.
    destruct (urlencode n); simpl; discriminate. }
  apply String.eqb_neq.
  destruct pairs as [| q pairs]; simpl.
  - specialize (Hhead ""). now rewrite append_empty_r in Hhead.
  - apply Hhead.
Qed.

Lemma concat_more_pairs (p : string * string) (pairs : list (string * string)) :
  searchParams_toString (p :: pairs) = serialize_pair p +:+ more_pairs pairs.
Proof.
  unfold searchParams_toString, more_pairs. revert p.
  induction pairs as [| q pairs IH]; intros p; simpl.
  - now rewrite append_empty_r.
  - specialize (IH q). simpl in IH. rewrite IH.
    destruct pairs; simpl; rewrite ?append_empty_r; reflexivity.
Qed.

(** C3, the claim as it stands, fails: for [{ k: ['a', 'b', 'c'] }] the
    encoder returns [?k=a%2Cb%2Cc], not the [?k=a,b,c] of the
    specification; the separating comma is percent-encoded with the rest. *)
Lemma array_comma_is_encoded :
  buildQueryString [("k", PArr [PStr "a"; PStr "b"; PStr "c"])] = "?k=a%2Cb%2Cc"
  /\ QueryEncoder_array_spec "k" [PStr "a"; PStr "b"; PStr "c"] = "?k=a,b,c"
  /\ buildQueryString [("k", PArr [PStr "a"; PStr "b"; PStr "c"])]
     <> QueryEncoder_array_spec "k" [PStr "a"; PStr "b"; PStr "c"].
Proof.
  split; [vm_compute; reflexivity |].
  split; [vm_compute; reflexivity |].
  vm_compute. discriminate.
Qed.

(** C3, amended. For every parameter object (no key twice) with an array
    [xs] under the key [k], the query string has exactly one pair named
    [k]; its value is the elements of [xs] joined by commas in their
    order, none dropped, and percent-encoded as a whole, so that each
    element is encoded and each separating comma stands as [%2C]: the
    query string has no literal comma. *)
Theorem buildQueryString_array (params : Object) (k : string) (xs : list Param) :
  List.NoDup (map fst params) ->
  In (k, PArr xs) params ->
  exists before after,
    buildQueryString params =
      "?" +:+ String.concat "&"
                (map serialize_pair (before ++ (k, join "," xs) :: after))
    /\ (forall p, In p (before ++ after) -> fst p <> k)
    /\ serialize_pair (k, join "," xs) =
         urlencode k +:+ "=" +:+
         String.concat "%2C" (map (fun x => urlencode (element_string x)) xs)
    /\ contains "," (buildQueryString params) = false.
Proof.
  intros Hnodup Hin.
  destruct (in_split _ _ Hin) as [l1 [l2 ->]].
  exists (contributed l1), (contributed l2).
  assert (Hpairs : query_pairs (l1 ++ (k, PArr xs) :: l2)
                   = contributed l1 ++ (k, join "," xs) :: contributed l2).
  { rewrite query_pairs_contributed by exact Hnodup.
    rewrite contributed_app. reflexivity. }
  split; [| split; [| split]].
  - unfold buildQueryString. rewrite Hpairs.
    rewrite serialized_nonempty; [reflexivity |].
    destruct (contributed l1); discriminate.
  - rewrite map_app in Hnodup. simpl in Hnodup.
    apply List.NoDup_remove_2 in Hnodup.
    intros p Hp Heq. apply Hnodup. rewrite <- Heq.
    rewrite in_app_iff in *. destruct Hp as [Hp | Hp]; [left | right];
      now apply contributed_keys.
  - unfold serialize_pair, join. simpl fst. simpl snd.
    rewrite urlencode_concat_comma, map_map. reflexivity.
  - apply buildQueryString_no_comma.
Qed.

(** The theorem at [{ per_page: 5, categories: [3, 4, 3] }]. *)
Lemma buildQueryString_array_example :
  List.NoDup (map fst [("per_page", PInt 5); ("categories", PArr [PInt 3; PInt 4; PInt 3])])
  /\ exists before after,
       buildQueryString [("per_page", PInt 5); ("categories", PArr [PInt 3; PInt 4; PInt 3])] =
         "?" +:+ String.concat "&"
                   (map serialize_pair
                      (before ++ ("categories", join "," [PInt 3; PInt 4; PInt 3]) :: after))
       /\ (forall p, In p (before ++ after) -> fst p <> "categories")
       /\ serialize_pair ("categories", join "," [PInt 3; PInt 4; PInt 3]) =
            urlencode "categories" +:+ "=" +:+
            String.concat "%2C"
              (map (fun x => urlencode (element_string x)) [PInt 3; PInt 4; PInt 3])
       /\ contains "," (buildQueryString
                          [("per_page", PInt 5);
                           ("categories", PArr [PInt 3; PInt 4; PInt 3])]) = false.
Proof.
  assert (Hnodup : List.NoDup
            (map fst [("per_page", PInt 5); ("categories", PArr [PInt 3; PInt 4; PInt 3])])).
  { simpl. repeat constructor; simpl; intuition discriminate. }
  split; [exact Hnodup |].
  apply (buildQueryString_array _ "categories" [PInt 3; PInt 4; PInt 3] Hnodup).
  simpl. auto.
Defined.

(** ** Objects: [obj_set], the spread, and the page size of the lists *)

Lemma obj_set_fresh {A : Type} (k : string) (v : A) (l : list (string * A)) :
  ~ In k (map fst l) -> obj_set k v l = l ++ [(k, v)].
Proof.
  induction l as [| [k' v'] l IH]; simpl; intros Hfresh; [reflexivity |].
  destruct (String.eqb_spec k' k) as [-> | Hne]; [tauto |].
  rewrite IH; [reflexivity | tauto].
Qed.

Lemma assoc_absent {A : Type} (k : string) (l : list (string * A)) :
  ~ In k (map fst l) -> assoc k l = None.
Proof.
  induction l as [| [k' v'] l IH]; simpl; intros Hfresh; [reflexivity |].
  destruct (String.eqb_spec k' k) as [-> | Hne]; [tauto |].
  apply IH. tauto.
Qed.

Lemma assoc_None_absent {A : Type} (k : string) (l : list (string * A)) :
  assoc k l = None -> ~ In k (map fst l).
Proof.
  induction l as [| [k' v'] l IH]; simpl; intros Hassoc; [tauto |].
  destruct (String.eqb_spec k' k) as [-> | Hne]; [discriminate |].
  intros [Heq | Hin]; [congruence | now apply IH].
Qed.

Lemma without_keys (name k : string) (o : Object) :
  In k (map fst (without name o)) -> k <> name /\ In k (map fst o).
Proof.
  induction o as [| [k' v'] o IH]; simpl; [tauto |].
  destruct (String.eqb_spec k' name) as [-> | Hne]; simpl.
  - intros Hin. destruct (IH Hin). tauto.
  - intros [<- | Hin]; [tauto |]. destruct (IH Hin). tauto.
Qed.

Lemma without_absent (name : string) (o : Object) :
  ~ In name (map fst o) -> without name o = o.
Proof.
  induction o as [| [k' v'] o IH]; simpl; intros Hfresh; [reflexivity |].
  destruct (String.eqb_spec k' name) as [-> | Hne]; simpl; [tauto |].
  rewrite IH; [reflexivity | tauto].
Qed.

Lemma NoDup_without (name : string) (o : Object) :
  List.NoDup (map fst o) -> List.NoDup (map fst (without name o)).
Proof.
  induction o as [| [k' v'] o IH]; simpl; intros Hnodup; [constructor |].
  inversion Hnodup as [| ? ? Hk Hrest]; subst.
  destruct (String.eqb_spec k' name) as [-> | Hne]; simpl; [now apply IH |].
  constructor; [| now apply IH].
  intros Hin. apply without_keys in Hin. tauto.
Qed.

Lemma fold_obj_set (name : string) (x : Param) (rest params : Object) :
  List.NoDup (map fst params) ->
  ~ In name (map fst rest) ->
  (forall k, In k (map fst rest) -> ~ In k (map fst params)) ->
  fold_left (fun o kv => obj_set (fst kv) (snd kv) o) params ((name, x) :: rest)
  = (name, default x (assoc name params)) :: rest ++ without name params.
Proof.
  revert x rest.
  induction params as [| [k v] params IH]; intros x rest Hnodup Hname Hrest.
  - simpl. now rewrite app_nil_r.
  - inversion Hnodup as [| ? ? Hk Hnodup']; subst.
    cbn [fold_left fst snd obj_set assoc without List.filter].
    destruct (String.eqb_spec name k) as [<- | Hne].
    + rewrite String.eqb_refl. cbn [negb].
      rewrite IH; [| exact Hnodup' | exact Hname |].
      * rewrite (assoc_absent name params Hk). reflexivity.
      * intros k' Hk' Hin. apply (Hrest k' Hk'). simpl. tauto.
    + assert (Hkn : String.eqb k name = false)
        by (apply String.eqb_neq; congruence).
      rewrite Hkn. cbn [negb].
      rewrite obj_set_fresh.
      * rewrite IH; [now rewrite <- app_assoc | exact Hnodup' | |].
        -- rewrite map_app, in_app_iff. simpl. intros [Hin | [Heq | []]]; congruence.
        -- intros k' Hk'. rewrite map_app, in_app_iff in Hk'. simpl in Hk'.
           destruct Hk' as [Hk' | [<- | []]]; [| exact Hk].
           intros Hin. apply (Hrest k' Hk'). simpl. tauto.
      * intros Hin. apply (Hrest k Hin). simpl. tauto.
Qed.

(** [{ name: d, ...params }]: [name] comes first, with the value [params]
    gives it if it has the key and [d] otherwise; the other properties of
    [params] follow in their order. *)
Lemma spread_default (name : string) (d : Param) (params : Object) :
  List.NoDup (map fst params) ->
  spread [(name, d)] params
  = (name, default d (assoc name params)) :: without name params.
Proof.
  intros Hnodup. unfold spread.
  rewrite (fold_obj_set name d [] params Hnodup); simpl; tauto.
Qed.

(** The query string of [{ per_page: d, ...params }] when the page size
    that results is written [s]. *)
Lemma buildQueryString_per_page (d : Param) (params : Object) (s : string) :
  List.NoDup (map fst params) ->
  query_value (default d (assoc "per_page" params)) = Some s ->
  buildQueryString (spread [("per_page", d)] params)
  = "?per_page=" +:+ urlencode s +:+
    more_pairs (contributed (without "per_page" params)).
Proof.
  intros Hnodup Hs. rewrite spread_default by exact Hnodup.
  unfold buildQueryString. cbv zeta.
  rewrite query_pairs_contributed.
  - change (contributed (("per_page", default d (assoc "per_page" params))
                         :: without "per_page" params))
      with (match query_value (default d (assoc "per_page" params)) with
            | Some s => [("per_page", s)]
            | None => []
            end ++ contributed (without "per_page" params)).
    rewrite Hs. cbn [app].
    rewrite serialized_nonempty by discriminate.
    rewrite concat_more_pairs. unfold serialize_pair. cbn [fst snd].
    change (urlencode "per_page") with "per_page".
    rewrite !append_assoc. reflexivity.
  - cbn [map fst]. constructor; [| now apply NoDup_without].
    intros Hin. apply without_keys in Hin. tauto.
Qed.

Section Lists.

Context {Remote : Type}.
Variable fetch : string -> RequestInit -> Remote -> (Thrown + Response) * Remote.
Variable SyntaxError_message : string -> string.

#[local] Abbreviation requestWithHeaders := (requestWithHeaders fetch SyntaxError_message).
#[local] Abbreviation list_operation := (list_operation fetch SyntaxError_message).
#[local] Abbreviation listUsers := (listUsers fetch SyntaxError_message).

Lemma requestWithHeaders_urls (this : WordPressClient) (endpoint : string)
  (options : RequestInit) (w : World) :
  urls (snd (requestWithHeaders this endpoint options w))
  = urls w ++ [resolve_url this endpoint].
Proof.
  unfold WordPress.requestWithHeaders, bind, do_fetch, urls.
  destruct (fetch _ _ (remote w)) as [[t | response] remote']; simpl.
  - now rewrite map_app.
  - destruct (ok response); simpl.
    + unfold response_json. destruct (JSON_parse (text response)); simpl;
        now rewrite map_app.
    + now rewrite map_app.
Qed.

Lemma list_operation_request (op : ListOperation) (this : WordPressClient)
  (params : option Object) :
  list_operation op this params
  = requestWithHeaders this
      (list_path op +:+
       buildQueryString
         (spread [("per_page", PInt (default_per_page op))] (default [] params)))
      no_options.
Proof. destruct op; reflexivity. Qed.

Lemma list_path_resolved (op : ListOperation) (this : WordPressClient) (query : string) :
  resolve_url this (list_path op +:+ query) = apiBase this +:+ list_path op +:+ query.
Proof. destruct op; reflexivity. Qed.

(** C10. Each list operation with parameters puts [per_page] first in the
    query, with its own default (20 for posts, pages, comments and media,
    100 for categories and tags) when the caller gives none, and with the
    caller's value when it gives one; the caller's other parameters follow.
    [listUsers] requests [/users] with no query at all. *)
Theorem list_per_page_default (op : ListOperation) (this : WordPressClient)
  (params : Object) (w : World) :
  List.NoDup (map fst params) ->
  (assoc "per_page" params = None ->
   urls (snd (list_operation op this (Some params) w))
   = urls w ++
     [apiBase this +:+ list_path op +:+ "?per_page=" +:+
      Number_toString (Dec (default_per_page op) 0) +:+
      more_pairs (contributed params)])
  /\ (forall v s,
        assoc "per_page" params = Some v -> query_value v = Some s ->
        urls (snd (list_operation op this (Some params) w))
        = urls w ++
          [apiBase this +:+ list_path op +:+ "?per_page=" +:+ urlencode s +:+
           more_pairs (contributed (without "per_page" params))])
  /\ urls (snd (list_operation op this None w))
     = urls w ++
       [apiBase this +:+ list_path op +:+ "?per_page=" +:+
        Number_toString (Dec (default_per_page op) 0)]
  /\ default_per_page op = (match op with Categories | Tags => 100 | _ => 20 end)
  /\ urls (snd (listUsers this w)) = urls w ++ [apiBase this +:+ "/users"].
Proof.
  intros Hnodup.
  assert (Hdefault : urlencode (Number_toString (Dec (default_per_page op) 0))
                     = Number_toString (Dec (default_per_page op) 0))
    by (destruct op; reflexivity).
  split; [| split; [| split; [| split]]].
  - intros Habsent.
    rewrite list_operation_request, requestWithHeaders_urls, list_path_resolved.
    change (default [] (Some params)) with params.
    rewrite (buildQueryString_per_page _ _ (Number_toString (Dec (default_per_page op) 0)))
      by (try exact Hnodup; rewrite Habsent; reflexivity).
    rewrite Hdefault.
    rewrite without_absent by (now apply assoc_None_absent).
    reflexivity.
  - intros v s Hv Hs.
    rewrite list_operation_request, requestWithHeaders_urls, list_path_resolved.
    change (default [] (Some params)) with params.
    rewrite (buildQueryString_per_page _ _ s)
      by (try exact Hnodup; rewrite Hv; exact Hs).
    reflexivity.
  - rewrite list_operation_request, requestWithHeaders_urls, list_path_resolved.
    destruct op; reflexivity.
  - destruct op; reflexivity.
  - unfold WordPress.listUsers. rewrite requestWithHeaders_urls. reflexivity.
Qed.

End Lists.

(** C10 at [listCategories({ per_page: 50, hide_empty: false })] and its
    siblings. *)
Lemma list_per_page_default_example :
  List.NoDup (map fst [("per_page", PInt 50); ("hide_empty", PBool false)])
  /\ urls (snd (listCategories (Scenario.always Scenario.malformed_total)
                  Scenario.no_message Scenario.client
                  (Some [("per_page", PInt 50); ("hide_empty", PBool false)])
                  Scenario.world))
     = ["https://example.com/wp-json/wp/v2/categories?per_page=50&hide_empty=false"].
Proof.
  assert (Hnodup : List.NoDup (map fst [("per_page", PInt 50); ("hide_empty", PBool false)])).
  { simpl. repeat constructor; simpl; intuition discriminate. }
  split; [exact Hnodup |].
  destruct (list_per_page_default (Scenario.always Scenario.malformed_total)
              Scenario.no_message Categories Scenario.client _ Scenario.world Hnodup)
    as [_ [Hgiven _]].
  exact (Hgiven (PInt 50) "50" eq_refl eq_refl).
Defined.

(** ** Deletes *)
Section Deletes.

Context {Remote : Type}.
Variable fetch : string -> RequestInit -> Remote -> (Thrown + Response) * Remote.
Variable SyntaxError_message : string -> string.

#[local] Abbreviation deletePost := (deletePost fetch SyntaxError_message).
#[local] Abbreviation deletePage := (deletePage fetch SyntaxError_message).
#[local] Abbreviation deleteComment := (deleteComment fetch SyntaxError_message).
#[local] Abbreviation deleteMedia := (deleteMedia fetch SyntaxError_message).

(** C9. Deleting a post, a page or a comment requests the resource with no
    query when [force] is left out or [false], and with [?force=true] when
    it is [true]; deleting a media item always requests it with a [force]
    parameter, which is [true] when [force] is left out. *)
Theorem delete_force_asymmetry (this : WordPressClient) (n : Number) (w : World) :
  let requested (run : Async Value) := urls (snd (run w)) in
  let target (path query : string) :=
    urls w ++ [apiBase this +:+ path +:+ Number_toString n +:+ query] in
  let plain (path : string) :=
    urls w ++ [apiBase this +:+ path +:+ Number_toString n] in
  (requested (deletePost this n None) = plain "/posts/"
   /\ requested (deletePost this n (Some false)) = plain "/posts/"
   /\ requested (deletePost this n (Some true)) = target "/posts/" "?force=true")
  /\ (requested (deletePage this n None) = plain "/pages/"
      /\ requested (deletePage this n (Some false)) = plain "/pages/"
      /\ requested (deletePage this n (Some true)) = target "/pages/" "?force=true")
  /\ (requested (deleteComment this n None) = plain "/comments/"
      /\ requested (deleteComment this n (Some false)) = plain "/comments/"
      /\ requested (deleteComment this n (Some true)) = target "/comments/" "?force=true")
  /\ (requested (deleteMedia this n None) = target "/media/" "?force=true"
      /\ requested (deleteMedia this n (Some true)) = target "/media/" "?force=true"
      /\ requested (deleteMedia this n (Some false)) = target "/media/" "?force=false").
Proof.
  cbv zeta.
  unfold WordPress.deletePost, WordPress.deletePage, WordPress.deleteComment,
    WordPress.deleteMedia.
  rewrite !request_urls.
  change (default false None) with false.
  change (default false (Some false)) with false.
  change (default false (Some true)) with true.
  change (default true None) with true.
  change (default true (Some true)) with true.
  change (default true (Some false)) with false.
  cbv iota.
  rewrite !append_empty_r.
  repeat split; reflexivity.
Qed.

End Deletes.

(** ** The tool handlers *)
Section Handlers.

Context {Remote : Type}.
Variable fetch : string -> RequestInit -> Remote -> (Thrown + Response) * Remote.
Variable SyntaxError_message : string -> string.
Variable describe : string -> Value -> Outcome string.

#[local] Abbreviation updateComment := (updateComment fetch SyntaxError_message).
#[local] Abbreviation moderate_each := (moderate_each fetch SyntaxError_message).
#[local] Abbreviation bulk_moderate_comments :=
  (bulk_moderate_comments fetch SyntaxError_message).
#[local] Abbreviation update_post := (update_post fetch SyntaxError_message describe).
#[local] Abbreviation update_page := (update_page fetch SyntaxError_message describe).
#[local] Abbreviation update_media := (update_media fetch SyntaxError_message describe).
#[local] Abbreviation update_site_settings :=
  (update_site_settings fetch SyntaxError_message describe).

(** Getting the client reads the environment and the cache: it sends
    nothing and leaves the remote site alone. *)
Lemma getWordPressClient_world (w : @World Remote) :
  sent (snd (getWordPressClient w)) = sent w
  /\ remote (snd (getWordPressClient w)) = remote w.
Proof.
  unfold getWordPressClient, createWordPressClient.
  destruct (wpClient w); [split; reflexivity |].
  destruct (env_var w "WORDPRESS_SITE_URL"); [| split; reflexivity].
  destruct (env_var w "WORDPRESS_USERNAME"); [| split; reflexivity].
  destruct (env_var w "WORDPRESS_APP_PASSWORD"); split; reflexivity.
Qed.

(** One step of the loop: the entry pushed is the one the outcome of this
    update calls for, and the loop goes on in the world the update left. *)
Lemma moderate_each_cons (client : WordPressClient) (status : CommentStatus)
  (commentId : Number) (rest : list Number) (results : list ModerationResult) (w : World) :
  moderate_each client status (commentId :: rest) results w
  = let r := updateComment client commentId [("status", PStr (status_name status))] w in
    moderate_each client status rest (results ++ [result_of commentId (fst r)]) (snd r).
Proof.
  cbn [WordPress.moderate_each].
  destruct (updateComment client commentId _ w) as [[v | thrown] w']; reflexivity.
Qed.

Lemma moderate_each_acc (client : WordPressClient) (status : CommentStatus)
  (ids : list Number) (results : list ModerationResult) (w : World) :
  moderate_each client status ids results w
  = (results ++ fst (moderate_each client status ids [] w),
     snd (moderate_each client status ids [] w)).
Proof.
  revert results w. induction ids as [| commentId rest IH]; intros results w.
  - simpl. now rewrite app_nil_r.
  - rewrite !moderate_each_cons. cbv zeta.
    rewrite IH. rewrite (IH ([] ++ _)). simpl. now rewrite <- app_assoc.
Qed.

Lemma moderate_each_app (client : WordPressClient) (status : CommentStatus)
  (ids1 ids2 : list Number) (w : World) :
  moderate_each client status (ids1 ++ ids2) [] w
  = let r1 := moderate_each client status ids1 [] w in
    let r2 := moderate_each client status ids2 [] (snd r1) in
    (fst r1 ++ fst r2, snd r2).
Proof.
  revert w. induction ids1 as [| commentId rest IH]; intros w.
  - simpl. destruct (moderate_each client status ids2 [] w); reflexivity.
  - rewrite <- app_comm_cons, !moderate_each_cons. cbv zeta.
    rewrite moderate_each_acc, IH.
    rewrite (moderate_each_acc client status rest ([] ++ _)).
    cbv zeta. simpl. reflexivity.
Qed.

Lemma moderate_each_length (client : WordPressClient) (status : CommentStatus)
  (ids : list Number) (w : World) :
  length (fst (moderate_each client status ids [] w)) = length ids.
Proof.
  revert w. induction ids as [| commentId rest IH]; intros w; [reflexivity |].
  rewrite moderate_each_cons. cbv zeta. rewrite moderate_each_acc.
  simpl. now rewrite IH.
Qed.

Lemma moderate_each_ids (client : WordPressClient) (status : CommentStatus)
  (ids : list Number) (w : World) :
  map id (fst (moderate_each client status ids [] w)) = ids.
Proof.
  revert w. induction ids as [| commentId rest IH]; intros w; [reflexivity |].
  rewrite moderate_each_cons. cbv zeta. rewrite moderate_each_acc.
  simpl. rewrite IH.
  destruct (fst (updateComment client commentId _ w)); reflexivity.
Qed.

Lemma updateComment_urls (client : WordPressClient) (commentId : Number) (input : Object)
  (w : World) :
  urls (snd (updateComment client commentId input w))
  = urls w ++ [apiBase client +:+ "/comments/" +:+ Number_toString commentId].
Proof. unfold WordPress.updateComment. rewrite request_urls. reflexivity. Qed.

Lemma moderate_each_urls (client : WordPressClient) (status : CommentStatus)
  (ids : list Number) (w : World) :
  urls (snd (moderate_each client status ids [] w))
  = urls w ++
    map (fun commentId => apiBase client +:+ "/comments/" +:+ Number_toString commentId) ids.
Proof.
  revert w. induction ids as [| commentId rest IH]; intros w.
  - simpl. now rewrite app_nil_r.
  - rewrite moderate_each_cons. cbv zeta. rewrite moderate_each_acc.
    cbn [snd]. rewrite IH, updateComment_urls. simpl. now rewrite <- app_assoc.
Qed.

Lemma moderate_each_entry (client : WordPressClient) (status : CommentStatus)
  (ids : list Number) (w : World) (i : nat) (commentId : Number) :
  ids !! i = Some commentId ->
  fst (moderate_each client status ids [] w) !! i
  = Some (result_of commentId
            (fst (updateComment client commentId [("status", PStr (status_name status))]
                    (snd (moderate_each client status (take i ids) [] w))))).
Proof.
  intros Hi.
  pose proof (lookup_lt_Some _ _ _ Hi) as Hlt.
  rewrite <- (take_drop_middle ids i commentId Hi) at 1.
  rewrite moderate_each_app. cbv zeta. cbn [fst].
  set (r1 := moderate_each client status (take i ids) [] w).
  rewrite moderate_each_cons. cbv zeta.
  rewrite (moderate_each_acc client status (drop (S i) ids)). cbn [fst app].
  assert (Hlen : length (fst r1) = i).
  { subst r1. rewrite moderate_each_length, length_take. lia. }
  rewrite lookup_app_r by lia. rewrite Hlen, Nat.sub_diag. reflexivity.
Qed.

Lemma updateComment_sent (client : WordPressClient) (commentId : Number)
  (status : CommentStatus) (w : World) :
  sent (snd (updateComment client commentId [("status", PStr (status_name status))] w))
  = sent w ++
    [(apiBase client +:+ "/comments/" +:+ Number_toString commentId,
      {| method := Some "POST";
         headers := [("Authorization", getAuthHeader client);
                     ("Content-Type", "application/json")];
         body := Some (TextBody ("{" +:+ quoted "status" +:+ ":" +:+
                                 quoted match status with
                                        | approved => "approved"
                                        | hold => "hold"
                                        | spam => "spam"
                                        | trash => "trash"
                                        end +:+ "}")) |})].
Proof.
  unfold WordPress.updateComment. rewrite request_world. cbn [sent].
  destruct status; reflexivity.
Qed.

Lemma moderate_each_sent (client : WordPressClient) (status : CommentStatus)
  (ids : list Number) (w : World) :
  sent (snd (moderate_each client status ids [] w))
  = sent w ++
    map (fun commentId =>
           (apiBase client +:+ "/comments/" +:+ Number_toString commentId,
            {| method := Some "POST";
               headers := [("Authorization", getAuthHeader client);
                           ("Content-Type", "application/json")];
               body := Some (TextBody ("{" +:+ quoted "status" +:+ ":" +:+
                                       quoted match status with
                                              | approved => "approved"
                                              | hold => "hold"
                                              | spam => "spam"
                                              | trash => "trash"
                                              end +:+ "}")) |})) ids.
Proof.
  revert w. induction ids as [| commentId rest IH]; intros w.
  - simpl. now rewrite app_nil_r.
  - rewrite moderate_each_cons. cbv zeta. rewrite moderate_each_acc.
    cbn [snd]. rewrite IH, updateComment_sent. simpl. now rewrite <- app_assoc.
Qed.

(** C7, amended. The handler gets the client first: when that fails, the
    call is rejected with the error of the client and no update is
    attempted. Once it has the client, every update is attempted, whatever
    the outcomes of the others: one POST to [/comments/{id}] with the body
    [{"status": status}] per comment id, in the order of the ids. The call
    is then fulfilled with the summary of a result list that has one entry
    per id, in that order; the entry of an id says whether its own update
    succeeded, and on failure carries the message of the error thrown
    ("Unknown error" if what was thrown is not an [Error]). The summary
    gives the two counts and the result list as indented JSON. *)
Theorem bulk_moderation_per_item (getClient : Async WordPressClient)
  (comment_ids : list Number) (status : CommentStatus) (w : World) :
  (forall thrown w1,
     getClient w = (Rejected thrown, w1) ->
     bulk_moderate_comments getClient comment_ids status w = (Rejected thrown, w1))
  /\ (forall client w1,
        getClient w = (Fulfilled client, w1) ->
        exists results details w',
          let nl := String "010"%char "" in
          bulk_moderate_comments getClient comment_ids status w
          = (Fulfilled
               (TextContent
                  ("Bulk moderation complete." +:+ nl +:+ nl +:+
                   "Successful: " +:+
                   Number_toString
                     (Dec (Z.of_nat (length (List.filter (fun r => success r) results))) 0)
                   +:+ nl +:+
                   "Failed: " +:+
                   Number_toString
                     (Dec (Z.of_nat (length (List.filter (fun r => negb (success r))
                                               results))) 0)
                   +:+ nl +:+ nl +:+
                   "Details:" +:+ nl +:+ details)),
             w')
          /\ JSON_stringify_2
               (JArr (map (fun r =>
                             JObj ([("id", JNum (id r)); ("success", JBool (success r))] ++
                                   match error r with
                                   | Some e => [("error", JStr e)]
                                   | None => []
                                   end)) results))
             = Some details
          /\ length results = length comment_ids
          /\ map id results = comment_ids
          /\ (forall i commentId,
                comment_ids !! i = Some commentId ->
                results !! i
                = Some
                    match fst (updateComment client commentId
                                 [("status", PStr (status_name status))]
                                 (snd (moderate_each client status (take i comment_ids)
                                         [] w1))) with
                    | Fulfilled _ => {| id := commentId; success := true; error := None |}
                    | Rejected (ErrorObject _ message) =>
                        {| id := commentId; success := false; error := Some message |}
                    | Rejected (NotAnError _) =>
                        {| id := commentId; success := false;
                           error := Some "Unknown error" |}
                    end)
          /\ sent w'
             = sent w1 ++
               map (fun commentId =>
                      (apiBase client +:+ "/comments/" +:+ Number_toString commentId,
                       {| method := Some "POST";
                          headers := [("Authorization", getAuthHeader client);
                                      ("Content-Type", "application/json")];
                          body := Some (TextBody ("{" +:+ quoted "status" +:+ ":" +:+
                                                  quoted match status with
                                                         | approved => "approved"
                                                         | hold => "hold"
                                                         | spam => "spam"
                                                         | trash => "trash"
                                                         end +:+ "}")) |}))
                   comment_ids).
Proof.
  split.
  - intros thrown w1 Hclient.
    unfold WordPress.bulk_moderate_comments, bind. now rewrite Hclient.
  - intros client w1 Hclient.
    set (results := fst (moderate_each client status comment_ids [] w1)).
    assert (Hdetails : exists details,
              JSON_stringify_2 (JArr (map result_value results)) = Some details)
      by (eexists; reflexivity).
    destruct Hdetails as [details Hdetails].
    exists results, details, (snd (moderate_each client status comment_ids [] w1)).
    cbv zeta. split; [| split; [exact Hdetails | split; [| split; [| split]]]].
    + unfold WordPress.bulk_moderate_comments, bind. rewrite Hclient.
      fold results.
      destruct (moderate_each client status comment_ids [] w1) as [rs w2] eqn:Hloop.
      cbn [fst snd] in *. unfold bulk_text, count, newline. subst results.
      cbn [fst]. now rewrite Hdetails.
    + apply moderate_each_length.
    + apply moderate_each_ids.
    + intros i commentId Hi. unfold results.
      rewrite (moderate_each_entry _ _ _ _ _ _ Hi). f_equal.
      destruct (fst (updateComment client commentId _ _)) as [v | [name message | v]];
        reflexivity.
    + apply moderate_each_sent.
Qed.

End Handlers.

(** C7, the claim as it stands, fails: on a process without credentials
    the call over six ids is rejected with the configuration error; no
    update is attempted and there is no result list. *)
Lemma bulk_moderation_without_client :
  bulk_moderate_comments Scenario.two_and_five_fail Scenario.no_message
    getWordPressClient Scenario.six_comments approved Scenario.unconfigured
  = (Rejected (ErrorObject "Error" "WORDPRESS_SITE_URL environment variable is required"),
     Scenario.unconfigured)
  /\ sent Scenario.unconfigured = []
  /\ length Scenario.six_comments = 6%nat.
Proof. repeat split. Qed.

(** C7 on the site where the comments 2 and 5 cannot be updated, for the
    ids 1 to 6: the summary in full, the entry of the comment 2, and the
    six requests. *)
Lemma bulk_moderation_per_item_example :
  (exists results w',
     snd (bulk_moderate_comments Scenario.two_and_five_fail Scenario.no_message
            getWordPressClient Scenario.six_comments approved Scenario.world) = w'
     /\ map id results = Scenario.six_comments
     /\ results !! 1%nat
        = Some {| id := Dec 2 0; success := false;
                  error := Some "WordPress API error (403): Sorry, you are not allowed to edit this comment." |}
     /\ map fst (sent w')
        = map (fun n => "https://example.com/wp-json/wp/v2/comments/" +:+ n)
            ["1"; "2"; "3"; "4"; "5"; "6"])
  /\ fst (bulk_moderate_comments Scenario.two_and_five_fail Scenario.no_message
            getWordPressClient Scenario.six_comments approved Scenario.world)
     = Fulfilled (TextContent Scenario.summary_of_six).
Proof.
  split; [| vm_compute; reflexivity].
  destruct (bulk_moderation_per_item Scenario.two_and_five_fail Scenario.no_message
              getWordPressClient Scenario.six_comments approved Scenario.world)
    as [_ Hclient].
  destruct (Hclient Scenario.client Scenario.world eq_refl)
    as (results & details & w' & Hrun & _ & _ & Hids & Hentry & Hsent).
  exists results, w'. cbv zeta in Hrun. rewrite Hrun. cbn [snd].
  split; [reflexivity |]. split; [exact Hids |]. split.
  - rewrite (Hentry 1%nat (Dec 2 0) eq_refl). vm_compute. reflexivity.
  - rewrite Hsent. vm_compute. reflexivity.
Defined.

(** The result list there: six entries, the second and the fifth failed
    with the message of the site, the others succeeded. *)
Example two_and_five_failed :
  fst (moderate_each Scenario.two_and_five_fail Scenario.no_message Scenario.client
         approved Scenario.six_comments [] Scenario.world)
  = let failed n :=
      {| id := Dec n 0; success := false;
         error := Some "WordPress API error (403): Sorry, you are not allowed to edit this comment." |} in
    let succeeded n := {| id := Dec n 0; success := true; error := None |} in
    [succeeded 1; failed 2; succeeded 3; succeeded 4; failed 5; succeeded 6].
Proof. vm_compute. reflexivity. Qed.

Section Updates.

Context {Remote : Type}.
Variable fetch : string -> RequestInit -> Remote -> (Thrown + Response) * Remote.
Variable SyntaxError_message : string -> string.
Variable describe : string -> Value -> Outcome string.

#[local] Abbreviation update_post :=
  (update_post fetch SyntaxError_message describe getWordPressClient).
#[local] Abbreviation update_page :=
  (update_page fetch SyntaxError_message describe getWordPressClient).
#[local] Abbreviation update_media :=
  (update_media fetch SyntaxError_message describe getWordPressClient).
#[local] Abbreviation update_site_settings :=
  (update_site_settings fetch SyntaxError_message describe getWordPressClient).

(** With nothing to update, a handler stops right after getting the
    client: with the text that says so, or with the error of the client. *)
Lemma stops_after_client (text : string) (rest : WordPressClient -> Async ToolResult)
  (w : @World Remote) :
  let handler :=
    bind getWordPressClient
      (fun client => if (length (map fst (@nil (string * Param))) =? 0)%nat
                     then resolve (TextContent text) else rest client) in
  sent (snd (handler w)) = sent w
  /\ remote (snd (handler w)) = remote w
  /\ (forall client w1,
        getWordPressClient w = (Fulfilled client, w1) ->
        fst (handler w) = Fulfilled (TextContent text))
  /\ (forall thrown w1,
        getWordPressClient w = (Rejected thrown, w1) ->
        fst (handler w) = Rejected thrown).
Proof.
  cbv zeta. unfold bind.
  destruct (getWordPressClient_world w) as [Hsent Hremote].
  destruct (getWordPressClient w) as [[client | thrown] w1]; simpl in *.
  - split; [assumption | split; [assumption | split]].
    + intros ? ? _. reflexivity.
    + intros ? ? Hclient. discriminate Hclient.
  - split; [assumption | split; [assumption | split]].
    + intros ? ? Hclient. discriminate Hclient.
    + intros ? ? Hclient. now injection Hclient as <- _.
Qed.

(** The client is there, or one of the three variables is missing. *)
Lemma getWordPressClient_rejects (w w1 : @World Remote) (thrown : Thrown) :
  getWordPressClient w = (Rejected thrown, w1) ->
  exists variable,
    In variable ["WORDPRESS_SITE_URL"; "WORDPRESS_USERNAME"; "WORDPRESS_APP_PASSWORD"]
    /\ thrown = ErrorObject "Error" (variable +:+ " environment variable is required").
Proof.
  unfold getWordPressClient, createWordPressClient.
  destruct (wpClient w); [discriminate |].
  destruct (env_var w "WORDPRESS_SITE_URL").
  - destruct (env_var w "WORDPRESS_USERNAME").
    + destruct (env_var w "WORDPRESS_APP_PASSWORD"); [discriminate |].
      intros H. injection H as <- _. exists "WORDPRESS_APP_PASSWORD". simpl. tauto.
    + intros H. injection H as <- _. exists "WORDPRESS_USERNAME". simpl. tauto.
  - intros H. injection H as <- _. exists "WORDPRESS_SITE_URL". simpl. tauto.
Qed.

(** C8, amended. When no field is left after the undefined ones are
    removed, each update handler (post, page, media, settings) sends no
    request and leaves the remote site as it was. The handlers get the
    client before they look at the fields: with the client at hand the
    call is fulfilled with the text that says that nothing was given ("No
    fields ...", for the settings "No settings ..."); when the client
    cannot be made, because one of the three variables of the credentials
    is missing, the call is rejected with the error that names the
    variable. *)
Theorem update_without_fields (args : UpdateArgs) (settings : Object) (w : World) :
  without_undefined (updateData args) = [] ->
  without_undefined settings = [] ->
  let quiet (r : Outcome ToolResult * World) :=
    sent (snd r) = sent w /\ remote (snd r) = remote w in
  let nothing_to_update := TextContent "Error: No fields to update were provided." in
  quiet (update_post args w)
  /\ quiet (update_page args w)
  /\ quiet (update_media args w)
  /\ quiet (update_site_settings settings w)
  /\ (forall client w1,
        getWordPressClient w = (Fulfilled client, w1) ->
        fst (update_post args w) = Fulfilled nothing_to_update
        /\ fst (update_page args w) = Fulfilled nothing_to_update
        /\ fst (update_media args w) = Fulfilled nothing_to_update
        /\ fst (update_site_settings settings w)
           = Fulfilled (TextContent "Error: No settings to update were provided."))
  /\ (forall thrown w1,
        getWordPressClient w = (Rejected thrown, w1) ->
        (exists variable,
           In variable ["WORDPRESS_SITE_URL"; "WORDPRESS_USERNAME";
                        "WORDPRESS_APP_PASSWORD"]
           /\ thrown = ErrorObject "Error"
                         (variable +:+ " environment variable is required"))
        /\ fst (update_post args w) = Rejected thrown
        /\ fst (update_page args w) = Rejected thrown
        /\ fst (update_media args w) = Rejected thrown
        /\ fst (update_site_settings settings w) = Rejected thrown).
Proof.
  intros Hargs Hsettings. cbv zeta.
  unfold WordPress.update_post, WordPress.update_page, WordPress.update_media,
    WordPress.update_site_settings.
  rewrite Hargs, Hsettings.
  pose proof (stops_after_client "Error: No fields to update were provided."
                (fun client =>
                   bind (updatePost fetch SyntaxError_message client (resource_id args) [])
                     (fun post => bind (settle (describe "update_post" post))
                                    (fun text => resolve (TextContent text)))) w) as Hpost.
  pose proof (stops_after_client "Error: No fields to update were provided."
                (fun client =>
                   bind (updatePage fetch SyntaxError_message client (resource_id args) [])
                     (fun page => bind (settle (describe "update_page" page))
                                    (fun text => resolve (TextContent text)))) w) as Hpage.
  pose proof (stops_after_client "Error: No fields to update were provided."
                (fun client =>
                   bind (updateMedia fetch SyntaxError_message client (resource_id args) [])
                     (fun media => bind (settle (describe "update_media" media))
                                     (fun text => resolve (TextContent text)))) w) as Hmedia.
  pose proof (stops_after_client "Error: No settings to update were provided."
                (fun client =>
                   bind (updateSettings fetch SyntaxError_message client [])
                     (fun settings => bind (settle (describe "update_site_settings" settings))
                                        (fun text => resolve (TextContent text)))) w) as Hset.
  cbv zeta in Hpost, Hpage, Hmedia, Hset.
  destruct Hpost as [? [? [Hpost Hpost']]], Hpage as [? [? [Hpage Hpage']]],
           Hmedia as [? [? [Hmedia Hmedia']]], Hset as [? [? [Hset Hset']]].
  split; [split; assumption |]. split; [split; assumption |].
  split; [split; assumption |]. split; [split; assumption |].
  split.
  - intros client w1 Hclient.
    split; [exact (Hpost _ _ Hclient) |]. split; [exact (Hpage _ _ Hclient) |].
    split; [exact (Hmedia _ _ Hclient) | exact (Hset _ _ Hclient)].
  - intros thrown w1 Hclient.
    split; [now apply (getWordPressClient_rejects w w1) |].
    split; [exact (Hpost' _ _ Hclient) |]. split; [exact (Hpage' _ _ Hclient) |].
    split; [exact (Hmedia' _ _ Hclient) | exact (Hset' _ _ Hclient)].
Qed.

(** When a field is left, [update_post] does send the update. *)
Lemma update_post_sends (args : UpdateArgs) (w w1 : World) (client : WordPressClient) :
  getWordPressClient w = (Fulfilled client, w1) ->
  without_undefined (updateData args) <> [] ->
  urls (snd (update_post args w))
  = urls w1 ++ [apiBase client +:+ "/posts/" +:+ Number_toString (resource_id args)].
Proof.
  intros Hclient Hfields. unfold WordPress.update_post, bind at 1. rewrite Hclient.
  destruct (without_undefined (updateData args)) as [| kv cleanData] eqn:Hclean;
    [congruence |].
  cbn [map length Nat.eqb].
  unfold bind at 1.
  pose proof (request_urls fetch SyntaxError_message client
                ("/posts/" +:+ Number_toString (resource_id args))
                (with_method "POST" (json_body (kv :: cleanData))) w1) as Hurls.
  unfold WordPress.updatePost.
  destruct (request fetch SyntaxError_message client _ _ w1) as [[post | thrown] w2];
    cbn [snd] in Hurls |- *; [| exact Hurls].
  unfold bind, settle, resolve.
  destruct (describe "update_post" post); exact Hurls.
Qed.

End Updates.

(** C8, the claim as it stands, fails: on a process without credentials
    an update with every field left out does not return the "no fields"
    outcome; it is rejected with the configuration error (and sends
    nothing). *)
Lemma update_without_fields_without_client :
  without_undefined (updateData Scenario.no_fields) = []
  /\ update_post (Scenario.always Scenario.bad_request) Scenario.no_message
       Scenario.no_description getWordPressClient Scenario.no_fields
       Scenario.unconfigured
     = (Rejected (ErrorObject "Error"
                    "WORDPRESS_SITE_URL environment variable is required"),
        Scenario.unconfigured)
  /\ fst (update_post (Scenario.always Scenario.bad_request) Scenario.no_message
            Scenario.no_description getWordPressClient Scenario.no_fields
            Scenario.unconfigured)
     <> Fulfilled (TextContent "Error: No fields to update were provided.").
Proof. split; [reflexivity |]. split; [reflexivity | discriminate]. Qed.

(** C8 at an update whose fields are all left out, with the client at hand. *)
Lemma update_without_fields_example :
  without_undefined (updateData Scenario.no_fields) = []
  /\ without_undefined [] = []
  /\ fst (update_post (Scenario.always Scenario.bad_request) Scenario.no_message
            Scenario.no_description getWordPressClient Scenario.no_fields Scenario.world)
     = Fulfilled (TextContent "Error: No fields to update were provided.")
  /\ sent (snd (update_post (Scenario.always Scenario.bad_request) Scenario.no_message
                  Scenario.no_description getWordPressClient Scenario.no_fields
                  Scenario.world))
     = [].
Proof.
  split; [reflexivity | split; [reflexivity |]].
  pose proof (update_without_fields (Scenario.always Scenario.bad_request)
                Scenario.no_message Scenario.no_description
                Scenario.no_fields [] Scenario.world eq_refl eq_refl) as H.
  cbv zeta in H. destruct H as [[Hsent _] [_ [_ [_ [H _]]]]].
  destruct (H Scenario.client Scenario.world eq_refl) as [Hpost _].
  split; [exact Hpost | exact Hsent].
Defined.

(** ** The access gate *)

Lemma prefix_split (p v : string) :
  String.prefix p v = true -> v = p +:+ slice (String.length p) v.
Proof.
  revert v. induction p as [| a p IH]; intros v Hp; [reflexivity |].
  destruct v as [| b v]; [discriminate Hp |].
  simpl in Hp. destruct (ascii_dec a b) as [<- | _]; [| discriminate Hp].
  rewrite append_cons. cbn [String.length slice]. now rewrite <- IH.
Qed.

(** A well-formed Authorization header that starts with [Bearer ] has a
    token after the prefix. *)
Lemma bearer_token_nonempty (v : string) :
  startsWith "Bearer " v = true -> Server.ends_blank v = false ->
  String.eqb (slice 7 v) "" = false.
Proof.
  intros Hp Hblank. apply prefix_split in Hp.
  change (String.length "Bearer ") with 7%nat in Hp.
  destruct (slice 7 v) as [| c rest]; [| reflexivity].
  rewrite Hp in Hblank. discriminate Hblank.
Qed.

Lemma bool_decide_Some_eqb (a b : string) :
  bool_decide (Some a = Some b) = String.eqb a b.
Proof.
  destruct (String.eqb_spec a b) as [-> | Hne].
  - now apply bool_decide_eq_true_2.
  - apply bool_decide_eq_false_2. congruence.
Qed.



(** The requests of the specification's examples, with the secret [S]. *)
Example gate_open_without_secret (headers : gmap string string) :
  Server.requireApiKey None headers = Server.Next
  /\ Server.requireApiKey (Some "") headers = Server.Next.
Proof. split; reflexivity. Qed.

Example gate_examples :
  Server.requireApiKey (Some "S") {[ "x-api-key" := "S" ]} = Server.Next
  /\ Server.requireApiKey (Some "S") {[ "authorization" := "Bearer S" ]} = Server.Next
  /\ Server.requireApiKey (Some "S") {[ "authorization" := "S" ]} = Server.Next
  /\ Server.code <$> (match Server.requireApiKey (Some "S") ∅ with
                      | Server.Respond r => Some r
                      | Server.Next => None
                      end) = Some 401
  /\ Server.code <$> (match Server.requireApiKey (Some "S") {[ "x-api-key" := "wrong" ]} with
                      | Server.Respond r => Some r
                      | Server.Next => None
                      end) = Some 403
  /\ Server.code <$> (match Server.requireApiKey (Some "S")
                              (<[ "x-api-key" := "wrong" ]> {[ "authorization" := "Bearer S" ]}) with
                      | Server.Respond r => Some r
                      | Server.Next => None
                      end) = Some 403.
Proof. repeat split; vm_compute; reflexivity. Qed.

(** Why the headers are taken well-formed: on the value [Bearer ] with
    nothing after the space, which no parsed request carries, the stripped
    token is empty and the middleware answers 401 without trying the bare
    header. *)
Example gate_empty_bearer_token :
  Server.code <$> (match Server.requireApiKey (Some "S") {[ "authorization" := "Bearer " ]} with
                   | Server.Respond r => Some r
                   | Server.Next => None
                   end) = Some 401.
Proof. vm_compute. reflexivity. Qed.

(** ** The session registry *)

(** C4, the claim as it stands, fails: two transports that minted the same
    identifier are opened one after the other. Whether [server.connect]
    returns for the second or throws, the second [set] replaces the first
    transport, and one identifier is registered, not two. No reply
    mentions the collision: there is none when [server.connect] returns,
    and the 500 sent when it throws carries the message of that error. *)
Lemma second_open_replaces_first :
  let st1 := Server.after [Server.Open Scenario.first_transport Server.Connected] in
  let opened := Server.sse_handler Scenario.second_transport Server.Connected st1 in
  let failed :=
    Server.sse_handler Scenario.second_transport
      (Server.ConnectFailed (ErrorObject "Error" "connect failed") false)
      st1 in
  Server.reachable st1
  /\ Server.sseTransports st1 !! "6f1c" = Some Scenario.first_transport
  /\ Scenario.first_transport <> Scenario.second_transport
  /\ snd opened = None
  /\ Server.sseTransports (fst opened) !! "6f1c" = Some Scenario.second_transport
  /\ size (Server.sseTransports (fst opened)) = 1%nat
  /\ snd failed
     = Some {| Server.code := 500; Server.error := "SSE connection failed";
               Server.message := Some "connect failed" |}
  /\ Server.sseTransports (fst failed) !! "6f1c" = Some Scenario.second_transport
  /\ size (Server.sseTransports (fst failed)) = 1%nat.
Proof.
  cbv zeta. split; [eexists; reflexivity |].
  split; [vm_compute; reflexivity |].
  split; [discriminate |].
  split; [reflexivity |].
  split; [vm_compute; reflexivity |].
  split; [vm_compute; reflexivity |].
  split; [reflexivity |].
  split; vm_compute; reflexivity.
Qed.

(** C4, amended. Opening a transport stores it under its own session
    identifier by plain map assignment, with no collision check.
    Whatever was registered under that identifier before, the new
    transport is what it routes to afterwards, and the entries under other
    identifiers are untouched; so opening two transports whose identifiers
    differ leaves two distinct identifiers registered, each with its own
    transport. The transport that was replaced is not closed and keeps its
    close listener. The reply does not depend on what was registered: it
    is the same as on the empty registry, namely none when
    [server.connect] returns or throws after the headers went out, and
    otherwise 500 "SSE connection failed" with the message of the error
    thrown ("Unknown error" if what was thrown is not an [Error]). *)
Theorem open_registers_by_assignment (st : Server.State)
  (transport : Server.SSEServerTransport) (connect : Server.ConnectOutcome) :
  let st' := fst (Server.sse_handler transport connect st) in
  let reply := snd (Server.sse_handler transport connect st) in
  Server.sseTransports st' !! Server.sessionId transport = Some transport
  /\ (forall sessionId,
        sessionId <> Server.sessionId transport ->
        Server.sseTransports st' !! sessionId = Server.sseTransports st !! sessionId)
  /\ (forall next connect',
        Server.sessionId next <> Server.sessionId transport ->
        let st'' := fst (Server.sse_handler next connect' st') in
        Server.sseTransports st'' !! Server.sessionId transport = Some transport
        /\ Server.sseTransports st'' !! Server.sessionId next = Some next)
  /\ Server.closed st' = Server.closed st
  /\ (forall listening, In listening (Server.listeners st) ->
                        In listening (Server.listeners st'))
  /\ reply = snd (Server.sse_handler transport connect Server.initial)
  /\ (connect = Server.Connected -> reply = None)
  /\ (forall error, connect = Server.ConnectFailed error true -> reply = None)
  /\ (forall name message,
        connect = Server.ConnectFailed (ErrorObject name message) false ->
        reply = Some {| Server.code := 500; Server.error := "SSE connection failed";
                        Server.message := Some message |})
  /\ (forall v,
        connect = Server.ConnectFailed (NotAnError v) false ->
        reply = Some {| Server.code := 500; Server.error := "SSE connection failed";
                        Server.message := Some "Unknown error" |}).
Proof.
  cbv zeta.
  assert (Hset : forall t c s,
            Server.sseTransports (fst (Server.sse_handler t c s))
            = <[Server.sessionId t := t]> (Server.sseTransports s)).
  { intros t c s. unfold Server.sse_handler. destruct c; reflexivity. }
  rewrite Hset. split; [apply lookup_insert_eq |].
  split; [intros sessionId Hne; now apply lookup_insert_ne |].
  split.
  { intros next connect' Hne. rewrite !Hset. split.
    - rewrite lookup_insert_ne by exact Hne. apply lookup_insert_eq.
    - apply lookup_insert_eq. }
  split; [destruct connect; reflexivity |].
  split.
  { intros listening Hin. destruct connect; cbn; [| exact Hin].
    apply in_or_app. now left. }
  split; [destruct connect; reflexivity |].
  split; [intros ->; reflexivity |].
  split; [intros error ->; reflexivity |].
  split; intros; subst connect; reflexivity.
Qed.

Lemma after_snoc (events : list Server.Event) (e : Server.Event) :
  Server.after (events ++ [e]) = Server.apply_event (Server.after events) e.
Proof. unfold Server.after. now rewrite fold_left_app. Qed.


Lemma currently_open_snoc (events : list Server.Event) (e : Server.Event) :
  Server.currently_open (events ++ [e])
  = match e with
    | Server.Open transport Server.Connected => Server.currently_open events ++ [transport]
    | Server.Open _ (Server.ConnectFailed _ _) => Server.currently_open events
    | Server.Close transport =>
        List.filter (fun t => negb (bool_decide (t = transport)))
          (Server.currently_open events)
    end.
Proof. unfold Server.currently_open. now rewrite fold_left_app. Qed.

Lemma opened_snoc (events : list Server.Event) (e : Server.Event) :
  Server.opened (events ++ [e])
  = Server.opened events ++ match e with
                            | Server.Open transport _ => [transport]
                            | Server.Close _ => []
                            end.
Proof.
  unfold Server.opened. rewrite flat_map_app. simpl. now rewrite app_nil_r.
Qed.

Lemma NoDup_map_injective {A B : Type} (f : A -> B) (l : list A) (x y : A) :
  List.NoDup (map f l) -> In x l -> In y l -> f x = f y -> x = y.
Proof.
  induction l as [| a l IH]; simpl; intros Hnodup Hx Hy Heq; [tauto |].
  inversion Hnodup as [| ? ? Hfresh Hrest]; subst.
  destruct Hx as [-> | Hx], Hy as [-> | Hy].
  - reflexivity.
  - exfalso. apply Hfresh. rewrite Heq. now apply in_map.
  - exfalso. apply Hfresh. rewrite <- Heq. now apply in_map.
  - now apply IH.
Qed.

(** While every [server.connect] returns and the session identifiers
    are pairwise different, the close listeners are those of the open
    sessions and the registry holds exactly the open sessions, each under
    its own identifier. *)
Lemma registry_tracks_open (events : list Server.Event) :
  Server.connects_return events ->
  List.NoDup (map Server.sessionId (Server.opened events)) ->
  Server.listeners (Server.after events) = Server.currently_open events
  /\ (forall transport, In transport (Server.currently_open events) ->
                        In transport (Server.opened events))
  /\ (forall id transport,
        Server.sseTransports (Server.after events) !! id = Some transport
        <-> In transport (Server.currently_open events)
            /\ Server.sessionId transport = id).
Proof.
  induction events as [| e events IH] using rev_ind; intros Hconnect Hnodup.
  - split; [reflexivity |]. split; [intros transport [] |].
    intros id transport. cbn. rewrite lookup_empty. split; [discriminate | intros [[] _]].
  - assert (Hconnect' : Server.connects_return events).
    { intros t c Hin. apply (Hconnect t c). apply in_or_app. now left. }
    rewrite opened_snoc in Hnodup. rewrite map_app in Hnodup.
    pose proof (NoDup_app_remove_r _ _ Hnodup) as Hnodup'.
    destruct (IH Hconnect' Hnodup') as [Hlisteners [Hopened Hregistry]].
    rewrite after_snoc, currently_open_snoc, opened_snoc.
    destruct e as [opening connect | gone]; cbn [Server.apply_event].
    + assert (connect = Server.Connected) as ->.
      { apply (Hconnect opening). apply in_or_app. right. now left. }
      cbn [Server.sse_handler fst Server.listeners Server.sseTransports].
      assert (Hfresh : ~ In (Server.sessionId opening)
                         (map Server.sessionId (Server.opened events))).
      { intros Hin. apply NoDup_remove_2 in Hnodup. apply Hnodup.
        rewrite app_nil_r. exact Hin. }
      split; [now rewrite Hlisteners |].
      split.
      * intros transport Hin. apply in_or_app.
        apply in_app_or in Hin as [Hin | [<- | []]]; [left; now apply Hopened |].
        right. now left.
      * intros id transport. split.
        -- intros Hlookup.
           destruct (decide (id = Server.sessionId opening)) as [-> | Hne].
           ++ rewrite lookup_insert_eq in Hlookup. injection Hlookup as <-.
              split; [| reflexivity]. apply in_or_app. right. now left.
           ++ rewrite lookup_insert_ne in Hlookup by congruence.
              apply Hregistry in Hlookup as [Hin Hid].
              split; [| exact Hid]. apply in_or_app. now left.
        -- intros [Hin Hid]. apply in_app_or in Hin as [Hin | [<- | []]].
           ++ rewrite lookup_insert_ne.
              ** apply Hregistry. now split.
              ** intros Hsame. apply Hfresh. rewrite Hsame, <- Hid.
                 apply in_map. now apply Hopened.
           ++ subst id. apply lookup_insert_eq.
    + rewrite app_nil_r. unfold Server.disconnect. rewrite Hlisteners.
      destruct (bool_decide_reflect (gone ∈ Server.currently_open events))
        as [Hgone | Hgone].
      * apply list_elem_of_In in Hgone.
        cbn [Server.on_close Server.listeners Server.sseTransports].
        rewrite Hlisteners.
        split; [reflexivity |].
        split; [intros transport Hin; apply List.filter_In in Hin as [Hin _];
                now apply Hopened |].
        intros id transport. split.
        -- intros Hlookup. apply lookup_delete_Some in Hlookup as [Hne Hlookup].
           apply Hregistry in Hlookup as [Hin Hid].
           split; [| exact Hid]. apply List.filter_In. split; [exact Hin |].
           apply negb_true_iff, bool_decide_eq_false_2. intros ->. congruence.
        -- intros [Hin Hid]. apply List.filter_In in Hin as [Hin Hother].
           apply negb_true_iff, bool_decide_eq_false in Hother.
           apply lookup_delete_Some. split.
           ++ intros Hsame. apply Hother.
              apply (NoDup_map_injective Server.sessionId (Server.opened events));
                [exact Hnodup' | now apply Hopened | now apply Hopened | congruence].
           ++ apply Hregistry. now split.
      * assert (Hsame : List.filter (fun t => negb (bool_decide (t = gone)))
                          (Server.currently_open events)
                        = Server.currently_open events).
        { apply List.forallb_filter_id. apply forallb_forall.
          intros t Hin. apply negb_true_iff, bool_decide_eq_false_2.
          intros ->. apply Hgone. now apply list_elem_of_In. }
        rewrite Hsame. split; [exact Hlisteners | split; [exact Hopened | exact Hregistry]].
Qed.

Section Routing.

Variable handlePostMessage : Server.SSEServerTransport -> Server.PostOutcome.

#[local] Abbreviation messages_handler := (Server.messages_handler handlePostMessage).

(** With a session identifier that is not empty, the answer is "session
    not found" exactly when the registry has no entry for it. *)
Lemma not_found_iff_absent (st : Server.State) (sessionId : string) :
  sessionId <> "" ->
  messages_handler (Server.QString sessionId) st = Server.not_found
  <-> Server.sseTransports st !! sessionId = None.
Proof.
  intros Hne. unfold Server.messages_handler, Server.not_found.
  apply String.eqb_neq in Hne. rewrite Hne.
  destruct (Server.sseTransports st !! sessionId) as [transport |].
  - split; [| discriminate].
    destruct (handlePostMessage transport) as [| thrown []]; discriminate.
  - split; reflexivity.
Qed.

(** The close of a request runs its listener at most once. *)
Lemma disconnect_idempotent (transport : Server.SSEServerTransport) (st : Server.State) :
  Server.disconnect transport (Server.disconnect transport st)
  = Server.disconnect transport st.
Proof.
  assert (Hgone : bool_decide
                    (transport ∈ Server.listeners (Server.disconnect transport st))
                  = false).
  { unfold Server.disconnect.
    destruct (bool_decide (transport ∈ Server.listeners st)) eqn:Hin; [| exact Hin].
    cbn [Server.listeners Server.on_close]. apply bool_decide_eq_false_2.
    intros Hmem. apply list_elem_of_In, filter_In in Hmem as [_ Hmem].
    rewrite bool_decide_eq_true_2 in Hmem by reflexivity. discriminate Hmem. }
  revert Hgone. generalize (Server.disconnect transport st). intros d Hgone.
  unfold Server.disconnect. now rewrite Hgone.
Qed.

(** C5, amended. Take any sequence of connections opening and requests
    closing in which every [server.connect] returned and the transports
    carry pairwise different session identifiers. Then, for a session
    identifier that is not empty, routing a message to it answers 404
    "Session not found" exactly when the identifier is not currently
    open: in particular when it was never opened, and when it was opened
    and its request has closed since. Whatever the state, an empty or
    missing [sessionId] is answered 400 "Missing sessionId parameter", and
    the close of a request that has closed already changes nothing. *)
Theorem not_found_iff_not_open (events : list Server.Event) (sessionId : string) :
  (Server.connects_return events ->
   List.NoDup (map Server.sessionId (Server.opened events)) ->
   sessionId <> "" ->
   (messages_handler (Server.QString sessionId) (Server.after events) = Server.not_found
    <-> ~ Server.is_open events sessionId)
   /\ (~ In sessionId (map Server.sessionId (Server.opened events)) ->
       messages_handler (Server.QString sessionId) (Server.after events)
       = Server.not_found)
   /\ (forall transport,
         In transport (Server.opened events) ->
         Server.sessionId transport = sessionId ->
         messages_handler (Server.QString sessionId)
           (Server.after (events ++ [Server.Close transport]))
         = Server.not_found))
  /\ (forall st,
        messages_handler (Server.QString "") st
        = Server.Reply {| Server.code := 400;
                          Server.error := "Missing sessionId parameter";
                          Server.message := None |}
        /\ messages_handler Server.QMissing st
           = Server.Reply {| Server.code := 400;
                             Server.error := "Missing sessionId parameter";
                             Server.message := None |})
  /\ (forall st transport,
        Server.apply_event (Server.apply_event st (Server.Close transport))
          (Server.Close transport)
        = Server.apply_event st (Server.Close transport)).
Proof.
  split; [| split; [intros st; split; reflexivity |
                    intros st transport; apply disconnect_idempotent]].
  intros Hconnect Hnodup Hne.
  assert (Hiff : forall events',
            Server.connects_return events' ->
            List.NoDup (map Server.sessionId (Server.opened events')) ->
            messages_handler (Server.QString sessionId) (Server.after events')
            = Server.not_found
            <-> ~ Server.is_open events' sessionId).
  { intros events' Hconnect' Hnodup'.
    destruct (registry_tracks_open events' Hconnect' Hnodup') as [_ [_ Hregistry]].
    rewrite (not_found_iff_absent _ _ Hne). unfold Server.is_open. split.
    - intros Habsent [transport Hopen]. apply Hregistry in Hopen. congruence.
    - intros Hclosed.
      destruct (Server.sseTransports (Server.after events') !! sessionId)
        as [transport |] eqn:Hlookup; [| reflexivity].
      exfalso. apply Hclosed. exists transport. now apply Hregistry. }
  destruct (registry_tracks_open events Hconnect Hnodup) as [_ [Hopened _]].
  split; [now apply Hiff |]. split.
  - intros Hnever. apply Hiff; [exact Hconnect | exact Hnodup |].
    intros [transport [Hin Hid]]. apply Hnever. rewrite <- Hid.
    apply in_map. now apply Hopened.
  - intros transport Hin Hid. apply Hiff.
    + intros t c Ht. apply in_app_or in Ht as [Ht | [Ht | []]];
        [now apply (Hconnect t c) | discriminate Ht].
    + rewrite opened_snoc, app_nil_r. exact Hnodup.
    + intros [other [Hother Hsame]]. rewrite currently_open_snoc in Hother.
      apply List.filter_In in Hother as [Hother Hdistinct].
      apply negb_true_iff, bool_decide_eq_false in Hdistinct. apply Hdistinct.
      apply (NoDup_map_injective Server.sessionId (Server.opened events));
        [exact Hnodup | now apply Hopened | exact Hin | congruence].
Qed.

End Routing.

(** C5, the claim as it stands, fails: the empty identifier is not open,
    and routing to it is answered 400, not 404. *)
Lemma empty_session_id_is_bad_request :
  Server.sseTransports Server.initial !! "" = None
  /\ ~ Server.is_open [] ""
  /\ Server.messages_handler Scenario.handles_all (Server.QString "") Server.initial
     = Server.Reply {| Server.code := 400; Server.error := "Missing sessionId parameter";
                       Server.message := None |}
  /\ Server.messages_handler Scenario.handles_all (Server.QString "") Server.initial
     <> Server.not_found.
Proof.
  split; [apply lookup_empty |].
  split; [intros [transport [[] _]] |].
  split; [reflexivity | discriminate].
Qed.

(** Neither condition of the amended claim can be dropped. A connection
    whose [server.connect] threw was never open, yet its identifier is
    routed to, also after its request has closed. *)
Example failed_connect_is_routed_to :
  let events := [Server.Open Scenario.first_transport
                   (Server.ConnectFailed (ErrorObject "Error" "connect failed") false);
                 Server.Close Scenario.first_transport] in
  ~ Server.is_open events "6f1c"
  /\ Server.messages_handler Scenario.handles_all (Server.QString "6f1c")
       (Server.after events)
     = Server.Delivered Scenario.first_transport.
Proof.
  cbv zeta. split; [intros [transport [[] _]] | vm_compute; reflexivity].
Qed.

(** And when two transports carry the same identifier, the close of the
    first removes the entry of the second, which is open and answered 404. *)
Example shared_identifier_is_not_found :
  let events := [Server.Open Scenario.first_transport Server.Connected;
                 Server.Open Scenario.second_transport Server.Connected;
                 Server.Close Scenario.first_transport] in
  Server.is_open events "6f1c"
  /\ Server.messages_handler Scenario.handles_all (Server.QString "6f1c")
       (Server.after events)
     = Server.not_found.
Proof.
  cbv zeta. split; [| vm_compute; reflexivity].
  exists Scenario.second_transport. split; [vm_compute; tauto | reflexivity].
Qed.

(** C5 at the identifier [6f1c]: found while open, not found once closed,
    and not found for an identifier never opened. *)
Lemma not_found_iff_not_open_example :
  Server.messages_handler Scenario.handles_all (Server.QString "6f1c")
    (Server.after [Server.Open Scenario.first_transport Server.Connected])
  = Server.Delivered Scenario.first_transport
  /\ Server.messages_handler Scenario.handles_all (Server.QString "6f1c")
       (Server.after [Server.Open Scenario.first_transport Server.Connected;
                      Server.Close Scenario.first_transport])
     = Server.not_found
  /\ Server.messages_handler Scenario.handles_all (Server.QString "0a0a")
       (Server.after [Server.Open Scenario.first_transport Server.Connected])
     = Server.not_found.
Proof.
  split; [vm_compute; reflexivity |].
  destruct (not_found_iff_not_open Scenario.handles_all
              [Server.Open Scenario.first_transport Server.Connected] "6f1c")
    as [Hopen _].
  destruct (not_found_iff_not_open Scenario.handles_all
              [Server.Open Scenario.first_transport Server.Connected] "0a0a")
    as [Hnever _].
  assert (Hconnect : Server.connects_return
                       [Server.Open Scenario.first_transport Server.Connected]).
  { intros t c [Hin | []]. now injection Hin. }
  assert (Hnodup : List.NoDup
                     (map Server.sessionId
                        (Server.opened
                           [Server.Open Scenario.first_transport Server.Connected]))).
  { simpl. constructor; [intros [] | constructor]. }
  split.
  - destruct (Hopen Hconnect Hnodup) as [_ [_ Hclosed]]; [discriminate |].
    apply (Hclosed Scenario.first_transport); [now left | reflexivity].
  - destruct (Hnever Hconnect Hnodup) as [_ [Hnone _]]; [discriminate |].
    apply Hnone. simpl. intros [Hsame | []]. discriminate Hsame.
Defined.

(** * Further properties of the client, the handlers and the server *)

(** ** The query encoder, continued *)

Lemma query_value_absent (value : Param) :
  query_value value = None <-> absent value = true.
Proof. destruct value; simpl; split; congruence. Qed.

Lemma searchParams_set_keys (name value k : string) (l : list (string * string)) :
  In k (map fst (searchParams_set name value l)) -> k = name \/ In k (map fst l).
Proof.
  induction l as [| [n v] l IH]; simpl; [intuition congruence |].
  destruct (String.eqb_spec n name) as [-> | Hne]; simpl.
  - intros [<- | Hin]; [tauto |].
    right. right. clear IH. induction l as [| [n' v'] l IH]; simpl in *; [tauto |].
    destruct (String.eqb n' name); simpl in *; tauto.
  - intros [<- | Hin]; [tauto |]. destruct (IH Hin); tauto.
Qed.

Lemma searchParams_set_nonempty (name value : string) (l : list (string * string)) :
  searchParams_set name value l <> [].
Proof. destruct l as [| [n v] l]; simpl; [| destruct (String.eqb n name)]; discriminate. Qed.

Section QueryFold.

Let add_entry (searchParams : list (string * string)) (kv : string * Param) :=
  match query_value (snd kv) with
  | Some s => searchParams_set (fst kv) s searchParams
  | None => searchParams
  end.

Lemma fold_skips_absent (params : Object) (acc : list (string * string)) :
  fold_left add_entry params acc
  = fold_left add_entry (List.filter (fun kv => negb (absent (snd kv))) params) acc.
Proof.
  revert acc. induction params as [| [k v] params IH]; intros acc; [reflexivity |].
  simpl. destruct v; simpl; apply IH.
Qed.

Lemma fold_keeps_nonempty (params : Object) (acc : list (string * string)) :
  acc <> [] -> fold_left add_entry params acc <> [].
Proof.
  revert acc. induction params as [| [k v] params IH]; intros acc Hacc; [exact Hacc |].
  simpl. apply IH. unfold add_entry. simpl.
  destruct (query_value v); [apply searchParams_set_nonempty | exact Hacc].
Qed.

Lemma fold_keys (params : Object) (acc : list (string * string)) (k : string) :
  In k (map fst (fold_left add_entry params acc)) ->
  In k (map fst acc) \/ exists v, In (k, v) params /\ absent v = false.
Proof.
  revert acc. induction params as [| [k' v'] params IH]; intros acc; simpl; [tauto |].
  intros Hin. destruct (IH _ Hin) as [Hacc | [v [Hv Habs]]].
  - unfold add_entry in Hacc. simpl in Hacc.
    destruct (query_value v') as [s |] eqn:Hq; [| tauto].
    apply searchParams_set_keys in Hacc as [-> | Hacc]; [| tauto].
    right. exists v'. split; [tauto |].
    destruct (absent v') eqn:Habs; [| reflexivity].
    apply query_value_absent in Habs. congruence.
  - right. exists v. tauto.
Qed.

End QueryFold.

(** X1. A parameter that is [undefined] or [null] never reaches the query:
    the query string is the one of the object without those parameters,
    every name in it belongs to a parameter that has a value, and it is
    empty (no [?]) exactly when no parameter has one. *)
Theorem buildQueryString_omits_absent (params : Object) :
  buildQueryString params
  = buildQueryString (List.filter (fun kv => negb (absent (snd kv))) params)
  /\ (forall k, In k (map fst (query_pairs params)) ->
                exists v, In (k, v) params /\ absent v = false)
  /\ (buildQueryString params = ""
      <-> List.Forall (fun kv => absent (snd kv) = true) params).
Proof.
  split; [| split].
  - unfold buildQueryString, query_pairs. now rewrite fold_skips_absent.
  - intros k Hk. unfold query_pairs in Hk.
    apply fold_keys in Hk as [[] | Hk]. exact Hk.
  - split.
    + intros Hempty. apply List.Forall_forall. intros [k v] Hin.
      cbn [snd]. destruct (absent v) eqn:Habs; [reflexivity | exfalso].
      apply in_split in Hin as [l1 [l2 ->]].
      unfold buildQueryString, query_pairs in Hempty.
      rewrite fold_left_app in Hempty. simpl in Hempty.
      destruct (query_value v) as [s |] eqn:Hq;
        [| apply query_value_absent in Hq; congruence].
      cbv zeta in Hempty.
      match type of Hempty with
      | context [searchParams_toString ?pairs] =>
          assert (Hne : pairs <> [])
            by (apply fold_keeps_nonempty, searchParams_set_nonempty)
      end.
      rewrite (serialized_nonempty _ Hne) in Hempty.
      discriminate Hempty.
    + intros Hall. unfold buildQueryString, query_pairs.
      assert (Hnone : forall acc,
                fold_left (fun searchParams kv =>
                             match query_value (snd kv) with
                             | Some s => searchParams_set (fst kv) s searchParams
                             | None => searchParams
                             end) params acc = acc).
      { induction Hall as [| [k v] params Hv Hall IH]; intros acc; [reflexivity |].
        simpl in *. apply query_value_absent in Hv. rewrite Hv. apply IH. }
      rewrite Hnone. reflexivity.
Qed.

(** ** The client's constructor *)

Lemma strip_trailing_slashes_slash (s : string) :
  strip_trailing_slashes (s +:+ "/") = strip_trailing_slashes s.
Proof.
  induction s as [| c s IH]; [reflexivity |].
  rewrite append_cons. cbn [strip_trailing_slashes]. now rewrite IH.
Qed.

Lemma strip_trailing_slashes_ends (s : string) :
  ends_with "/" (strip_trailing_slashes s) = false.
Proof.
  induction s as [| c s IH]; [reflexivity |].
  cbn [strip_trailing_slashes].
  destruct (strip_trailing_slashes s) as [| d rest].
  - destruct (Ascii.eqb c "/") eqn:Hc; [reflexivity |]. simpl. exact Hc.
  - exact IH.
Qed.

Lemma strip_trailing_slashes_fixed (s : string) :
  ends_with "/" s = false -> strip_trailing_slashes s = s.
Proof.
  induction s as [| c s IH]; [reflexivity |].
  intros Hends. cbn [strip_trailing_slashes].
  destruct s as [| d rest].
  - simpl in *. now rewrite Hends.
  - rewrite IH by exact Hends. reflexivity.
Qed.

(** X3. The client is built on the site URL without its trailing slashes:
    the stored URL never ends in a slash, a URL written with one more slash
    gives the same client, a URL that has none is kept as it is, and the
    API base is the stored URL followed by [/wp-json/wp/v2]. *)
Theorem new_WordPressClient_normalises (url user password : string) :
  let client := new_WordPressClient url user password in
  ends_with "/" (siteUrl client) = false
  /\ new_WordPressClient (url +:+ "/") user password = client
  /\ (ends_with "/" url = false -> siteUrl client = url)
  /\ apiBase client = siteUrl client +:+ "/wp-json/wp/v2".
Proof.
  cbv zeta. unfold new_WordPressClient. cbn [siteUrl apiBase].
  split; [apply strip_trailing_slashes_ends |].
  split; [now rewrite strip_trailing_slashes_slash |].
  split; [apply strip_trailing_slashes_fixed | reflexivity].
Qed.

(** ** The executors, continued *)

Lemma assoc_obj_set {A : Type} (k name : string) (v : A) (l : list (string * A)) :
  assoc name (obj_set k v l) = if String.eqb k name then Some v else assoc name l.
Proof.
  induction l as [| [k' v'] l IH]; simpl.
  - reflexivity.
  - destruct (String.eqb_spec k' k) as [-> | Hne]; simpl.
    + destruct (String.eqb k name); reflexivity.
    + rewrite IH. destruct (String.eqb_spec k' name) as [-> | Hne'];
        [| reflexivity].
      destruct (String.eqb_spec k name); [congruence | reflexivity].
Qed.

Lemma assoc_spread {A : Type} (name : string) (a b : list (string * A)) :
  List.NoDup (map fst b) ->
  assoc name (spread a b) = match assoc name b with
                            | Some v => Some v
                            | None => assoc name a
                            end.
Proof.
  unfold spread. revert a. induction b as [| [k v] b IH]; intros a Hnodup.
  - reflexivity.
  - inversion Hnodup as [| ? ? Hfresh Hrest]; subst. simpl.
    rewrite (IH _ Hrest), assoc_obj_set.
    destruct (String.eqb_spec k name) as [-> | Hne]; [| reflexivity].
    now rewrite (assoc_absent name b Hfresh).
Qed.

Section Requests.

Context {Remote : Type}.
Variable fetch : string -> RequestInit -> Remote -> (Thrown + Response) * Remote.
Variable SyntaxError_message : string -> string.

#[local] Abbreviation request := (request fetch SyntaxError_message).
#[local] Abbreviation requestWithHeaders := (requestWithHeaders fetch SyntaxError_message).
#[local] Abbreviation uploadMedia := (uploadMedia fetch SyntaxError_message).

(** X4. [request] is fulfilled exactly when the transport answered with a
    2xx response whose body is JSON text, and then with the parsed body; a
    failure of the transport itself is passed on unchanged. *)
Theorem request_fulfilled_iff (this : WordPressClient) (endpoint : string)
  (options : RequestInit) (w : World) :
  let answer :=
    fst (fetch (resolve_url this endpoint)
           {| method := method options; headers := json_headers this options;
              body := body options |} (remote w)) in
  (forall v, fst (request this endpoint options w) = Fulfilled v
             <-> exists response, answer = inr response /\ ok response = true
                                  /\ JSON_parse (text response) = Some v)
  /\ (forall t, answer = inl t -> fst (request this endpoint options w) = Rejected t).
Proof.
  cbv zeta. unfold WordPress.request, bind, do_fetch.
  destruct (fetch _ _ (remote w)) as [[t | response] remote']; simpl.
  - split.
    + intros v. split; [discriminate |]. intros [response [Hr _]]. discriminate.
    + intros t' Ht. congruence.
  - split; [| discriminate].
    intros v. unfold api_error, response_json.
    destruct (ok response) eqn:Hok; simpl.
    + destruct (JSON_parse (text response)) as [parsed |] eqn:Hparse; simpl.
      * split.
        -- intros Hv. injection Hv as ->. exists response.
           split; [reflexivity |]. split; [exact Hok | exact Hparse].
        -- intros [r [Hr [_ Hp]]]. congruence.
      * split; [discriminate |]. intros [r [Hr [_ Hp]]]. congruence.
    + split.
      * destruct (ToString _); discriminate.
      * intros [r [Hr [Hok' _]]]. congruence.
Qed.

(** X5. None of the three executors retries or sends anything else: a call
    adds exactly one request to those sent, after the earlier ones, and
    leaves the environment and the cached client as they were, whatever
    the outcome. *)
Theorem executors_send_once (this : WordPressClient) (endpoint : string)
  (options : RequestInit) (file : FileData) (filename contentType : string)
  (upload : UploadOptions) (w : World) :
  let once (w' : World) :=
    (exists init, sent w' = sent w ++ [init])
    /\ env w' = env w /\ wpClient w' = wpClient w in
  once (snd (request this endpoint options w))
  /\ once (snd (requestWithHeaders this endpoint options w))
  /\ once (snd (uploadMedia this file filename contentType upload w)).
Proof.
  cbv zeta. split; [| split].
  - unfold WordPress.request, bind, do_fetch.
    destruct (fetch _ _ (remote w)) as [[t | response] remote']; simpl;
      [eauto |].
    destruct (ok response); simpl; [rewrite response_json_world |]; simpl; eauto.
  - unfold WordPress.requestWithHeaders, bind, do_fetch.
    destruct (fetch _ _ (remote w)) as [[t | response] remote']; simpl;
      [eauto |].
    destruct (ok response); simpl; [| eauto].
    unfold response_json. destruct (JSON_parse (text response)); simpl; eauto.
  - unfold WordPress.uploadMedia, bind, do_fetch.
    destruct (fetch _ _ (remote w)) as [[t | response] remote']; simpl;
      [eauto |].
    destruct (ok response); simpl; [rewrite response_json_world |]; simpl; eauto.
Qed.

(** X6. What [request] sends carries the caller's method and body, and the
    caller's headers over the two defaults: a header the caller names has
    the caller's value, and otherwise [Authorization] is the Basic
    credentials of the client and [Content-Type] is [application/json]. *)
Theorem request_sends_headers (this : WordPressClient) (endpoint : string)
  (options : RequestInit) (w : World) :
  List.NoDup (map fst (headers options)) ->
  exists init,
    sent (snd (request this endpoint options w))
    = sent w ++ [(resolve_url this endpoint, init)]
    /\ method init = method options
    /\ body init = body options
    /\ forall name,
         assoc name (headers init)
         = match assoc name (headers options) with
           | Some value => Some value
           | None =>
               if String.eqb name "Authorization" then Some (getAuthHeader this)
               else if String.eqb name "Content-Type" then Some "application/json"
               else None
           end.
Proof.
  intros Hnodup. eexists. rewrite request_world. cbn [sent].
  split; [reflexivity |]. cbn [method body headers].
  split; [reflexivity |]. split; [reflexivity |].
  intros name. unfold json_headers. rewrite (assoc_spread _ _ _ Hnodup).
  destruct (assoc name (headers options)); [reflexivity |].
  simpl. rewrite !(String.eqb_sym name). reflexivity.
Qed.

End Requests.

Lemma request_sends_headers_example :
  exists init,
    sent (snd (WordPress.request (Scenario.always Scenario.bad_request) Scenario.no_message
                 Scenario.client "/posts" {| method := Some "GET";
                             headers := [("Authorization", "Bearer t")];
                             body := None |}
                 Scenario.world))
    = [("https://example.com/wp-json/wp/v2/posts", init)]
    /\ assoc "Authorization" (headers init) = Some "Bearer t"
    /\ assoc "Content-Type" (headers init) = Some "application/json".
Proof.
  destruct (request_sends_headers (Scenario.always Scenario.bad_request) Scenario.no_message
              Scenario.client "/posts" {| method := Some "GET";
                          headers := [("Authorization", "Bearer t")];
                          body := None |}
              Scenario.world)
    as [init [Hsent [_ [_ Hheaders]]]].
  - simpl. repeat constructor. intros Hin. inversion Hin.
  - exists init. split; [exact Hsent |].
    split; [exact (Hheaders "Authorization") | exact (Hheaders "Content-Type")].
Defined.

(** ** Pagination headers, continued *)

Lemma digits_value_stop (acc : Z) (rest : string) :
  (forall c rest', rest = String c rest' -> digit c = None) ->
  digits_value true acc rest = Some acc.
Proof.
  intros Hstop. destruct rest as [| c rest']; [reflexivity |].
  simpl. now rewrite (Hstop c rest' eq_refl).
Qed.

Lemma digits_value_uint (u : Decimal.uint) (acc : positive) (rest : string) :
  (forall c rest', rest = String c rest' -> digit c = None) ->
  digits_value true (Z.pos acc) (NilEmpty.string_of_uint u +:+ rest)
  = Some (Z.pos (Pos.of_uint_acc u acc)).
Proof.
  intros Hstop. revert acc.
  induction u as [| u IH | u IH | u IH | u IH | u IH | u IH | u IH | u IH | u IH | u IH];
    intros acc; cbn [NilEmpty.string_of_uint Pos.of_uint_acc];
    [apply digits_value_stop, Hstop | ..];
    rewrite append_cons; cbn [digits_value];
    match goal with
    | |- context [digit ?c] =>
        let d := eval vm_compute in (digit c) in change (digit c) with d
    end;
    cbv iota; rewrite <- IH; f_equal; lia.
Qed.

Lemma digits_value_decimal (n : N) (rest : string) :
  (forall c rest', rest = String c rest' -> digit c = None) ->
  digits_value false 0 (decimal n +:+ rest) = Some (Z.of_N n).
Proof.
  intros Hstop. unfold decimal.
  rewrite <- (DecimalN.Unsigned.of_to n) at 2.
  assert (Hnonnil : N.to_uint n <> Decimal.Nil).
  { destruct n; [discriminate | apply DecimalPos.Unsigned.to_uint_nonnil]. }
  assert (Hzero : forall u seen,
            u <> Decimal.Nil \/ seen = true ->
            digits_value seen 0 (NilEmpty.string_of_uint u +:+ rest)
            = Some (Z.of_N (N.of_uint u))).
  { induction u as [| u IH | u IH | u IH | u IH | u IH | u IH | u IH | u IH | u IH | u IH];
      intros seen Hseen;
      [destruct Hseen as [Hnil | ->]; [congruence | apply digits_value_stop, Hstop] | ..];
      cbn [NilEmpty.string_of_uint]; rewrite append_cons; cbn [digits_value];
      match goal with
      | |- context [digit ?c] =>
          let d := eval vm_compute in (digit c) in change (digit c) with d
      end;
      cbv iota; [apply IH; now right | ..];
      apply (digits_value_uint u _ rest Hstop). }
  destruct (N.to_uint n) as [| u | u | u | u | u | u | u | u | u | u] eqn:Hu;
    [congruence | ..]; apply Hzero; left; discriminate.
Qed.

Lemma parseInt10_digit_first (c : ascii) (s : string) :
  (exists d, digit c = Some d) ->
  parseInt10 (String c s)
  = match digits_value false 0 (String c s) with
    | Some n => to_binary64 n
    | None => NaN
    end.
Proof.
  intros [d Hd].
  assert (Hsame : parseInt10 (String c s)
                  = match digits_value false 0 (String c s) with
                    | Some n => to_binary64 (1 * n)
                    | None => NaN
                    end).
  { destruct c as [[] [] [] [] [] [] [] []]; vm_compute in Hd;
      try discriminate Hd; reflexivity. }
  rewrite Hsame. destruct (digits_value false 0 (String c s)) as [n |]; [| reflexivity].
  now rewrite Z.mul_1_l.
Qed.

Lemma decimal_first (n : N) :
  exists c s, decimal n = String c s /\ exists d, digit c = Some d.
Proof.
  unfold decimal.
  destruct (N.to_uint n) as [| u | u | u | u | u | u | u | u | u | u];
    cbn [NilZero.string_of_uint NilEmpty.string_of_uint];
    do 2 eexists; (split; [reflexivity | eexists; vm_compute; reflexivity]).
Qed.

(** An integer below [2^53] in magnitude is its own Number value. *)
Lemma to_binary64_exact (z : Z) :
  Z.abs z <= 9007199254740991 -> to_binary64 z = Dec z 0.
Proof.
  intros Hsafe. unfold to_binary64. change (2 ^ 53) with 9007199254740992.
  destruct (Z.ltb_spec (Z.abs z) 9007199254740992); [reflexivity | lia].
Qed.

(** Beyond [2^53] the value is the nearest binary64, and an infinity past
    the largest of them. *)
Example parseInt10_rounds :
  parseInt10 "9007199254740993" = Dec 9007199254740992 0
  /\ parseInt10 "9007199254740995" = Dec 9007199254740996 0
  /\ parseInt10 ("-1" +:+ string_repeat 309 "0") = Infinity true.
Proof. repeat split; vm_compute; reflexivity. Qed.

(** A header that starts with the decimal digits of [n], followed by
    nothing or by something that is not a digit, is read as the Number
    value of [n]. *)
Lemma header_count_reads_decimal (response : Response) (name : string) (n : N)
  (rest : string) :
  response_headers response !! name = Some (decimal n +:+ rest) ->
  (forall c rest', rest = String c rest' -> digit c = None) ->
  header_count response name = to_binary64 (Z.of_N n).
Proof.
  intros Hheader Hstop. unfold header_count. rewrite Hheader.
  pose proof (digits_value_decimal n rest Hstop) as Hvalue.
  destruct (decimal_first n) as [c [s [Heq Hdigit]]].
  rewrite Heq in *. rewrite append_cons in *.
  change (String.eqb (String c (s +:+ rest)) "") with false. cbv iota.
  rewrite (parseInt10_digit_first c _ Hdigit), Hvalue. reflexivity.
Qed.

Section Pagination.

Context {Remote : Type}.
Variable fetch : string -> RequestInit -> Remote -> (Thrown + Response) * Remote.
Variable SyntaxError_message : string -> string.

(** X7. On a 2xx response with a JSON body, whose [x-wp-total] and
    [x-wp-totalpages] headers are the decimal numerals of [n] and [m],
    both at most [2^53 - 1] ([Number.MAX_SAFE_INTEGER]),
    [requestWithHeaders] is fulfilled with the parsed body and with
    exactly the numbers [n] and [m]. (A larger count is read as the
    nearest binary64, which need not be the count.) *)
Theorem requestWithHeaders_reads_totals (this : WordPressClient) (endpoint : string)
  (options : RequestInit) (w : World) (response : Response) (v : Value) (n m : N) :
  fst (fetch (resolve_url this endpoint)
         {| method := method options; headers := json_headers this options;
            body := body options |} (remote w)) = inr response ->
  ok response = true ->
  JSON_parse (text response) = Some v ->
  response_headers response !! "x-wp-total" = Some (decimal n) ->
  response_headers response !! "x-wp-totalpages" = Some (decimal m) ->
  (n <= 9007199254740991)%N ->
  (m <= 9007199254740991)%N ->
  fst (requestWithHeaders fetch SyntaxError_message this endpoint options w)
  = Fulfilled {| data := v; total := Dec (Z.of_N n) 0; totalPages := Dec (Z.of_N m) 0 |}.
Proof.
  intros Hfetch Hok Hparse Htotal Hpages Hn Hm.
  unfold requestWithHeaders, bind, do_fetch.
  destruct (fetch _ _ (remote w)) as [answer remote']. simpl in Hfetch. subst answer.
  simpl. rewrite Hok. simpl. unfold response_json. rewrite Hparse. simpl.
  rewrite <- (append_empty_r (decimal n)) in Htotal.
  rewrite <- (append_empty_r (decimal m)) in Hpages.
  rewrite (header_count_reads_decimal _ _ n "" Htotal) by discriminate.
  rewrite (header_count_reads_decimal _ _ m "" Hpages) by discriminate.
  rewrite !to_binary64_exact by lia. reflexivity.
Qed.

End Pagination.

Lemma requestWithHeaders_reads_totals_example :
  fst (requestWithHeaders (Scenario.always Scenario.three_pages) Scenario.no_message
         Scenario.client "/posts" no_options Scenario.world)
  = Fulfilled {| data := JArr []; total := Dec 42 0; totalPages := Dec 3 0 |}.
Proof.
  apply (requestWithHeaders_reads_totals (Scenario.always Scenario.three_pages)
           Scenario.no_message Scenario.client "/posts" no_options Scenario.world
           Scenario.three_pages (JArr []) 42 3); try reflexivity; lia.
Defined.

(** ** Lookups by slug *)

Lemma urldecode_component_byte (c : ascii) (rest : string) :
  urldecode (uri_component_byte c +:+ rest) = String c (urldecode rest).
Proof. destruct c as [[] [] [] [] [] [] [] []]; reflexivity. Qed.

Lemma uri_component_byte_reserved (c : ascii) :
  forallb (fun d => negb (contains d (uri_component_byte c)))
    (list_ascii_of_string "&=?#/+ ") = true.
Proof. destruct c as [[] [] [] [] [] [] [] []]; vm_compute; reflexivity. Qed.

Lemma uri_component_bytes_decode (s : string) : urldecode (uri_component_bytes s) = s.
Proof.
  induction s as [| c s IH]; [reflexivity |].
  change (uri_component_bytes (String c s))
    with (uri_component_byte c +:+ uri_component_bytes s).
  now rewrite urldecode_component_byte, IH.
Qed.

Lemma uri_component_bytes_reserved (s : string) (d : ascii) :
  In d (list_ascii_of_string "&=?#/+ ") -> contains d (uri_component_bytes s) = false.
Proof.
  intros Hd. induction s as [| c s IH]; [reflexivity |].
  change (uri_component_bytes (String c s))
    with (uri_component_byte c +:+ uri_component_bytes s).
  rewrite contains_app, IH, orb_false_r.
  pose proof (uri_component_byte_reserved c) as Hall.
  rewrite forallb_forall in Hall. specialize (Hall d Hd).
  now apply negb_true_iff in Hall.
Qed.

(** A slug with reserved characters, one with a character beyond the
    basic plane (a surrogate pair: four bytes), and a lone surrogate. *)
Example encodeURIComponent_examples :
  encodeURIComponent "my post&x=1" = Some "my%20post%26x%3D1"
  /\ encodeURIComponent
       (String (chr 240) (String (chr 159) (String (chr 152) (String (chr 128) ""))))
     = Some "%F0%9F%98%80"
  /\ encodeURIComponent (String (chr 237) (String (chr 160) (String (chr 128) "")))
     = None.
Proof. repeat split; vm_compute; reflexivity. Qed.

Section Slugs.

Context {Remote : Type}.
Variable fetch : string -> RequestInit -> Remote -> (Thrown + Response) * Remote.
Variable SyntaxError_message : string -> string.

#[local] Abbreviation getPostBySlug := (getPostBySlug fetch SyntaxError_message).
#[local] Abbreviation getPageBySlug := (getPageBySlug fetch SyntaxError_message).
#[local] Abbreviation requestWithHeaders := (requestWithHeaders fetch SyntaxError_message).

Lemma first_or_null_world (data : Value) (w : @World Remote) :
  snd (first_or_null data w) = w.
Proof. unfold first_or_null. destruct (index0 data); reflexivity. Qed.

(** What a lookup does with the encoded slug: one request, and the first
    element of the array in the answer, or [null]. *)
Lemma lookup_by_slug (this : WordPressClient) (path : string) (w : World) :
  let lookup :=
    bind (requestWithHeaders this path no_options)
      (fun result => first_or_null (data result)) in
  urls (snd (lookup w)) = urls w ++ [resolve_url this path]
  /\ forall response items,
       fst (fetch (resolve_url this path)
              {| method := None; headers := json_headers this no_options;
                 body := None |} (remote w)) = inr response ->
       ok response = true ->
       JSON_parse (text response) = Some (JArr items) ->
       fst (lookup w) = Fulfilled match items with
                                  | x :: _ => if truthy x then x else JNull
                                  | [] => JNull
                                  end.
Proof.
  cbv zeta. split.
  - unfold bind.
    pose proof (requestWithHeaders_urls fetch SyntaxError_message this path
                  no_options w) as Hurls.
    destruct (requestWithHeaders this path no_options w) as [[result | thrown] w1];
      cbn [snd] in *; [rewrite first_or_null_world |]; exact Hurls.
  - intros response items Hfetch Hok Hparse.
    unfold WordPress.requestWithHeaders, bind, do_fetch.
    cbn [method headers body no_options] in *.
    destruct (fetch _ _ (remote w)) as [answer remote']. simpl in Hfetch. subst answer.
    simpl. rewrite Hok. simpl. unfold response_json. rewrite Hparse. simpl.
    destruct items as [| x items]; [reflexivity |].
    unfold first_or_null, or_else. simpl. destruct (truthy x); reflexivity.
Qed.

(** X8. A lookup by slug first encodes the slug. A slug with a lone
    surrogate makes [encodeURIComponent] throw: the lookup rejects with a
    [URIError] and sends nothing. Any other slug gives one request, to
    [/posts?slug=] (or [/pages?slug=]) followed by the encoded slug, which
    decodes back to the slug and contains none of [& = ? # / +] nor a
    space, so the slug cannot add a parameter or change the path; and when
    the site answers 2xx with a JSON array, the lookup (of a post and of a
    page alike) is fulfilled with its first element if that is truthy,
    and with [null] otherwise. *)
Theorem getPostBySlug_query (this : WordPressClient) (slug : string) (w : World) :
  (has_lone_surrogate slug = true ->
   getPostBySlug this slug w = (Rejected (ErrorObject "URIError" "URI malformed"), w)
   /\ getPageBySlug this slug w = (Rejected (ErrorObject "URIError" "URI malformed"), w))
  /\ (has_lone_surrogate slug = false ->
      exists encoded,
        urldecode encoded = slug
        /\ (forall d, In d (list_ascii_of_string "&=?#/+ ") -> contains d encoded = false)
        /\ urls (snd (getPostBySlug this slug w))
           = urls w ++ [apiBase this +:+ "/posts?slug=" +:+ encoded]
        /\ urls (snd (getPageBySlug this slug w))
           = urls w ++ [apiBase this +:+ "/pages?slug=" +:+ encoded]
        /\ (forall response items,
              fst (fetch (apiBase this +:+ "/posts?slug=" +:+ encoded)
                     {| method := None; headers := json_headers this no_options;
                        body := None |} (remote w)) = inr response ->
              ok response = true ->
              JSON_parse (text response) = Some (JArr items) ->
              fst (getPostBySlug this slug w)
              = Fulfilled match items with
                          | x :: _ => if truthy x then x else JNull
                          | [] => JNull
                          end)
        /\ (forall response items,
              fst (fetch (apiBase this +:+ "/pages?slug=" +:+ encoded)
                     {| method := None; headers := json_headers this no_options;
                        body := None |} (remote w)) = inr response ->
              ok response = true ->
              JSON_parse (text response) = Some (JArr items) ->
              fst (getPageBySlug this slug w)
              = Fulfilled match items with
                          | x :: _ => if truthy x then x else JNull
                          | [] => JNull
                          end)).
Proof.
  unfold WordPress.getPostBySlug, WordPress.getPageBySlug, encodeURIComponent.
  split; intros Hslug; rewrite Hslug; [split; reflexivity |].
  exists (uri_component_bytes slug).
  split; [apply uri_component_bytes_decode |].
  split; [apply uri_component_bytes_reserved |].
  destruct (lookup_by_slug this ("/posts?slug=" +:+ uri_component_bytes slug) w)
    as [Hpost_urls Hpost].
  destruct (lookup_by_slug this ("/pages?slug=" +:+ uri_component_bytes slug) w)
    as [Hpage_urls Hpage].
  split; [exact Hpost_urls |]. split; [exact Hpage_urls |].
  split; [exact Hpost | exact Hpage].
Qed.

End Slugs.

(** ** The access gate, continued *)

Lemma length_append (a b : string) :
  String.length (a +:+ b) = (String.length a + String.length b)%nat.
Proof.
  induction a as [| c a IH]; [reflexivity |].
  rewrite append_cons. simpl. now rewrite IH.
Qed.

Lemma startsWith_bearer (token : string) :
  startsWith "Bearer " ("Bearer " +:+ token) = true.
Proof. apply String.prefix_correct. simpl. now destruct token. Qed.

Lemma slice_shorter (v : string) :
  startsWith "Bearer " v = true -> slice 7 v <> v.
Proof.
  intros Hprefix Hsame. apply (prefix_split "Bearer ") in Hprefix.
  cbn [String.length] in Hprefix. rewrite Hsame in Hprefix.
  apply (f_equal String.length) in Hprefix.
  rewrite length_append in Hprefix. simpl in Hprefix. lia.
Qed.

(** X9. With a secret configured, a request passes the middleware in
    exactly three cases: its [x-api-key] is the secret; or it has no
    [x-api-key] (or an empty one) and its [Authorization] is [Bearer ]
    followed by the secret; or it has no [x-api-key] and its
    [Authorization] is the secret itself, which then must not start with
    [Bearer ]. *)
Theorem requireApiKey_passes_iff (secret : string) (headers : gmap string string) :
  secret <> "" ->
  Server.requireApiKey (Some secret) headers = Server.Next
  <-> headers !! "x-api-key" = Some secret
      \/ (Server.present (headers !! "x-api-key") = false
          /\ (headers !! "authorization" = Some ("Bearer " +:+ secret)
              \/ (headers !! "authorization" = Some secret
                  /\ startsWith "Bearer " secret = false))).
Proof.
  intros Hsecret. apply String.eqb_neq in Hsecret as Hempty.
  unfold Server.requireApiKey, Server.present, Server.is_bearer. rewrite Hempty.
  cbn [negb].
  destruct (headers !! "x-api-key") as [key |].
  - destruct (String.eqb_spec key "") as [-> | Hkey]; cbn [negb].
    + destruct (headers !! "authorization") as [a |]; cbn [option_map negb].
      * destruct (startsWith "Bearer " a) eqn:Hbearer.
        -- destruct (String.eqb_spec (slice 7 a) "") as [Hslice | Hslice]; cbn [negb].
           ++ split; [discriminate |].
              intros [Hk | [_ [Ha | [Ha Hb]]]]; try congruence.
              injection Ha as ->. change (slice 7 ("Bearer " +:+ secret)) with secret in Hslice.
              congruence.
           ++ rewrite bool_decide_Some_eqb.
              destruct (String.eqb_spec (slice 7 a) secret) as [Heq | Hne]; cbn [negb].
              ** split; [| reflexivity]. intros _. right. split; [reflexivity |].
                 left. f_equal. rewrite <- Heq. now apply (prefix_split "Bearer ").
              ** split; [discriminate |].
                 intros [Hk | [_ [Ha | [Ha Hb]]]]; try congruence.
                 injection Ha as ->. change (slice 7 ("Bearer " +:+ secret)) with secret in Hne.
                 congruence.
        -- destruct (String.eqb_spec a "") as [-> | Ha']; cbn [negb].
           ++ split; [discriminate |].
              intros [Hk | [_ [Ha | [Ha Hb]]]]; try congruence;
          injection Ha as Ha; discriminate Ha.
           ++ rewrite (proj2 (String.eqb_neq a "") Ha'). cbn [negb].
              rewrite bool_decide_Some_eqb.
              destruct (String.eqb_spec a secret) as [-> | Hne]; cbn [negb].
              ** split; [| reflexivity]. intros _. right. split; [reflexivity |].
                 right. split; [reflexivity | exact Hbearer].
              ** split; [discriminate |].
                 intros [Hk | [_ [Ha | [Ha Hb]]]]; try congruence.
                 injection Ha as ->.
                 rewrite startsWith_bearer in Hbearer.
                 discriminate Hbearer.
      * split; [discriminate |].
        intros [Hk | [_ [Ha | [Ha Hb]]]]; try congruence;
          injection Ha as Ha; discriminate Ha.
    + rewrite (proj2 (String.eqb_neq key "") Hkey). cbn [negb].
      rewrite bool_decide_Some_eqb.
      destruct (String.eqb_spec key secret) as [-> | Hne]; cbn [negb].
      * split; [| reflexivity]. intros _. now left.
      * split; [discriminate |].
        intros [Hk | [Hpresent _]]; congruence.
  - destruct (headers !! "authorization") as [a |]; cbn [option_map negb].
    + destruct (startsWith "Bearer " a) eqn:Hbearer.
      * destruct (String.eqb_spec (slice 7 a) "") as [Hslice | Hslice]; cbn [negb].
        -- split; [discriminate |].
           intros [Hk | [_ [Ha | [Ha Hb]]]]; try congruence.
           injection Ha as ->. change (slice 7 ("Bearer " +:+ secret)) with secret in Hslice.
              congruence.
        -- rewrite bool_decide_Some_eqb.
           destruct (String.eqb_spec (slice 7 a) secret) as [Heq | Hne]; cbn [negb].
           ++ split; [| reflexivity]. intros _. right. split; [reflexivity |].
              left. f_equal. rewrite <- Heq. now apply (prefix_split "Bearer ").
           ++ split; [discriminate |].
              intros [Hk | [_ [Ha | [Ha Hb]]]]; try congruence.
              injection Ha as ->. change (slice 7 ("Bearer " +:+ secret)) with secret in Hne.
                 congruence.
      * destruct (String.eqb_spec a "") as [-> | Ha']; cbn [negb].
        -- split; [discriminate |].
           intros [Hk | [_ [Ha | [Ha Hb]]]]; try congruence;
          injection Ha as Ha; discriminate Ha.
        -- rewrite (proj2 (String.eqb_neq a "") Ha'). cbn [negb].
           rewrite bool_decide_Some_eqb.
           destruct (String.eqb_spec a secret) as [-> | Hne]; cbn [negb].
           ++ split; [| reflexivity]. intros _. right. split; [reflexivity |].
              right. split; [reflexivity | exact Hbearer].
           ++ split; [discriminate |].
              intros [Hk | [_ [Ha | [Ha Hb]]]]; try congruence.
              injection Ha as ->.
                 rewrite startsWith_bearer in Hbearer.
                 discriminate Hbearer.
    + split; [discriminate |].
      intros [Hk | [_ [Ha | [Ha Hb]]]]; try congruence;
          injection Ha as Ha; discriminate Ha.
Qed.

Lemma requireApiKey_passes_iff_example :
  Server.requireApiKey (Some "s3cret")
    (<["authorization" := "Bearer s3cret"]> (<["x-api-key" := ""]> ∅))
  = Server.Next.
Proof.
  apply (requireApiKey_passes_iff "s3cret"
           (<["authorization" := "Bearer s3cret"]> (<["x-api-key" := ""]> ∅))).
  - discriminate.
  - right. split; [reflexivity |]. left. reflexivity.
Defined.

(** X10. The [x-api-key] header, when it is not empty, is the only key
    looked at: if it is not the secret the request is answered 403,
    whatever [Authorization] holds, the right Bearer token included. *)
Theorem x_api_key_takes_precedence (secret key : string) (headers : gmap string string) :
  secret <> "" ->
  headers !! "x-api-key" = Some key -> key <> "" -> key <> secret ->
  Server.requireApiKey (Some secret) headers
  = Server.Respond {| Server.code := 403; Server.error := "Forbidden";
                      Server.message := Some "Invalid API key" |}.
Proof.
  intros Hsecret Hkey Hempty Hwrong.
  unfold Server.requireApiKey, Server.present. rewrite Hkey.
  rewrite (proj2 (String.eqb_neq secret "") Hsecret),
          !(proj2 (String.eqb_neq key "") Hempty).
  cbn [negb]. rewrite (proj2 (String.eqb_neq key "") Hempty). cbn [negb].
  rewrite bool_decide_Some_eqb, (proj2 (String.eqb_neq key secret) Hwrong).
  reflexivity.
Qed.

Lemma x_api_key_takes_precedence_example :
  Server.requireApiKey (Some "s3cret")
    (<["authorization" := "Bearer s3cret"]> (<["x-api-key" := "guess"]> ∅))
  = Server.Respond {| Server.code := 403; Server.error := "Forbidden";
                      Server.message := Some "Invalid API key" |}.
Proof.
  apply (x_api_key_takes_precedence "s3cret" "guess"); [discriminate | reflexivity | discriminate | discriminate].
Defined.

(** ** The health report and the cached client *)

Section Configuration.

Context {Remote : Type}.

(** X11. [/health] tells the truth about the configuration: it reports
    credentials exactly when [createWordPressClient] would succeed on the
    same environment, and it reports no API-key protection exactly when
    the middleware lets every request through. *)
Theorem health_reports_configuration (w : @World Remote) (API_KEY : option string) :
  (Server.hasCredentials (Server.health (env w) API_KEY) = true
   <-> exists client, createWordPressClient w = (Fulfilled client, w))
  /\ (Server.apiKeyProtected (Server.health (env w) API_KEY) = false
      <-> forall headers, Server.requireApiKey API_KEY headers = Server.Next).
Proof.
  split.
  - unfold Server.health, createWordPressClient, env_var, Server.present.
    cbn [Server.hasCredentials].
    destruct (env w !! "WORDPRESS_SITE_URL") as [site |];
      [destruct (String.eqb site "") |]; cbn [negb andb];
      try (split; [discriminate | intros [client Hclient]; discriminate Hclient]).
    destruct (env w !! "WORDPRESS_USERNAME") as [user |];
      [destruct (String.eqb user "") |]; cbn [negb andb];
      try (split; [discriminate | intros [client Hclient]; discriminate Hclient]).
    destruct (env w !! "WORDPRESS_APP_PASSWORD") as [password |];
      [destruct (String.eqb password "") |]; cbn [negb andb];
      try (split; [discriminate | intros [client Hclient]; discriminate Hclient]).
    split; [intros _; eexists; reflexivity | reflexivity].
  - unfold Server.health. cbn [Server.apiKeyProtected]. split.
    + intros Hopen headers. unfold Server.requireApiKey. now rewrite Hopen.
    + intros Hpass. specialize (Hpass ∅). unfold Server.requireApiKey in Hpass.
      destruct (Server.present API_KEY); [| reflexivity].
      discriminate Hpass.
Qed.

(** X12. The client is created once: after a call of [getWordPressClient]
    that succeeded, every later call returns the same client without
    looking at the environment again, whatever it has become; a call that
    failed leaves no client behind, so the next call tries again. *)
Theorem getWordPressClient_caches (w : @World Remote) :
  (forall client,
     fst (getWordPressClient w) = Fulfilled client ->
     forall env' (remote' : Remote) sent',
       let later : World := {| env := env'; wpClient := wpClient (snd (getWordPressClient w));
                       remote := remote'; sent := sent' |} in
       getWordPressClient later = (Fulfilled client, later))
  /\ (forall thrown,
        fst (getWordPressClient w) = Rejected thrown ->
        snd (getWordPressClient w) = w /\ wpClient w = None).
Proof.
  unfold getWordPressClient.
  destruct (wpClient w) as [cached |] eqn:Hcached.
  - split.
    + intros client Hclient env' remote' sent'. injection Hclient as ->.
      cbn [snd wpClient]. rewrite Hcached. reflexivity.
    + intros thrown Hthrown. discriminate Hthrown.
  - destruct (createWordPressClient w) as [[client | thrown] w1] eqn:Hcreate.
    + split.
      * intros client' Hclient env' remote' sent'. injection Hclient as ->.
        reflexivity.
      * intros thrown Hthrown. discriminate Hthrown.
    + split; [intros client Hclient; discriminate Hclient |].
      intros thrown' _. split; [| reflexivity]. cbn [snd].
      unfold createWordPressClient in Hcreate.
      destruct (env_var w "WORDPRESS_SITE_URL"); [| now injection Hcreate].
      destruct (env_var w "WORDPRESS_USERNAME"); [| now injection Hcreate].
      destruct (env_var w "WORDPRESS_APP_PASSWORD"); now injection Hcreate.
Qed.

End Configuration.

(** ** The session registry, continued *)

(** X13. Whatever connections opened and closed, in whatever order: a
    transport is registered under its own session identifier only, and
    for a connection that was opened; a close listener exists, and
    [transport.close()] was called, only for a connection whose
    [server.connect] returned, and the latter only after its request
    closed; and a message is delivered to a transport only under that
    transport's own identifier. *)
Theorem registry_invariant (events : list Server.Event) :
  let st := Server.after events in
  (forall sessionId transport,
     Server.sseTransports st !! sessionId = Some transport ->
     Server.sessionId transport = sessionId
     /\ exists connect, In (Server.Open transport connect) events)
  /\ (forall transport,
        In transport (Server.listeners st) ->
        In (Server.Open transport Server.Connected) events)
  /\ (forall transport,
        In transport (Server.closed st) ->
        In (Server.Open transport Server.Connected) events
        /\ In (Server.Close transport) events)
  /\ (forall handlePostMessage sessionId transport,
        Server.messages_handler handlePostMessage (Server.QString sessionId) st
        = Server.Delivered transport ->
        Server.sessionId transport = sessionId).
Proof.
  cbv zeta.
  assert (Hinv :
    (forall sessionId transport,
       Server.sseTransports (Server.after events) !! sessionId = Some transport ->
       Server.sessionId transport = sessionId
       /\ exists connect, In (Server.Open transport connect) events)
    /\ (forall transport,
          In transport (Server.listeners (Server.after events)) ->
          In (Server.Open transport Server.Connected) events)
    /\ (forall transport,
          In transport (Server.closed (Server.after events)) ->
          In (Server.Open transport Server.Connected) events
          /\ In (Server.Close transport) events)).
  { induction events as [| e events IH] using rev_ind.
    - split; [| split].
      + intros sessionId transport Hlookup. cbn in Hlookup.
        rewrite lookup_empty in Hlookup. discriminate Hlookup.
      + intros transport [].
      + intros transport [].
    - destruct IH as [Hregistry [Hlisteners Hclosed]]. rewrite after_snoc.
      destruct e as [opened connect | gone]; cbn [Server.apply_event].
      + assert (Hset : Server.sseTransports
                         (fst (Server.sse_handler opened connect (Server.after events)))
                       = <[Server.sessionId opened := opened]>
                           (Server.sseTransports (Server.after events)))
          by (destruct connect; reflexivity).
        assert (Hsame : Server.closed
                          (fst (Server.sse_handler opened connect (Server.after events)))
                        = Server.closed (Server.after events))
          by (destruct connect; reflexivity).
        rewrite Hset, Hsame. split; [| split].
        * intros sessionId transport Hlookup.
          destruct (decide (sessionId = Server.sessionId opened)) as [-> | Hne].
          -- rewrite lookup_insert_eq in Hlookup. injection Hlookup as <-.
             split; [reflexivity |]. exists connect. apply in_or_app. right. now left.
          -- rewrite lookup_insert_ne in Hlookup by congruence.
             destruct (Hregistry _ _ Hlookup) as [Hid [c Hc]].
             split; [exact Hid |]. exists c. apply in_or_app. now left.
        * intros transport Hin. apply in_or_app.
          destruct connect as [| error headersSent]; cbn in Hin.
          -- apply in_app_or in Hin as [Hin | [<- | []]];
               [left; now apply Hlisteners | right; now left].
          -- left. now apply Hlisteners.
        * intros transport Hin. destruct (Hclosed _ Hin) as [Ho Hc].
          split; apply in_or_app; now left.
      + unfold Server.disconnect.
        destruct (bool_decide_reflect (gone ∈ Server.listeners (Server.after events)))
          as [Hgone | Hgone]; cbn.
        * apply list_elem_of_In in Hgone. split; [| split].
          -- intros sessionId transport Hlookup.
             apply lookup_delete_Some in Hlookup as [_ Hlookup].
             destruct (Hregistry _ _ Hlookup) as [Hid [c Hc]].
             split; [exact Hid |]. exists c. apply in_or_app. now left.
          -- intros transport Hin. apply List.filter_In in Hin as [Hin _].
             apply in_or_app. left. now apply Hlisteners.
          -- intros transport Hin. apply in_app_or in Hin as [Hin | [<- | []]].
             ++ destruct (Hclosed _ Hin) as [Ho Hc].
                split; apply in_or_app; now left.
             ++ split; apply in_or_app; [left; now apply Hlisteners | right; now left].
        * split; [| split].
          -- intros sessionId transport Hlookup.
             destruct (Hregistry _ _ Hlookup) as [Hid [c Hc]].
             split; [exact Hid |]. exists c. apply in_or_app. now left.
          -- intros transport Hin. apply in_or_app. left. now apply Hlisteners.
          -- intros transport Hin. destruct (Hclosed _ Hin) as [Ho Hc].
             split; apply in_or_app; now left. }
  destruct Hinv as [Hregistry [Hlisteners Hclosed]].
  split; [exact Hregistry | split; [exact Hlisteners | split; [exact Hclosed |]]].
  intros handlePostMessage sessionId transport Hdelivered.
  unfold Server.messages_handler in Hdelivered.
  destruct (String.eqb sessionId ""); [discriminate Hdelivered |].
  destruct (Server.sseTransports (Server.after events) !! sessionId) as [t |] eqn:Hlookup;
    [| discriminate Hdelivered].
  destruct (handlePostMessage t) as [| error []]; try discriminate Hdelivered.
  injection Hdelivered as <-. now apply Hregistry.
Qed.

(** X14. When [server.connect] throws, the transport stays in the
    registry and gets no close listener: the close of its request then
    changes nothing, so the entry is still there afterwards, and
    [transport.close()] is not called. *)
Theorem failed_connect_stays_registered (transport : Server.SSEServerTransport)
  (error : Thrown) (headersSent : bool) (st : Server.State) :
  transport ∉ Server.listeners st ->
  let st' := fst (Server.sse_handler transport
                    (Server.ConnectFailed error headersSent) st) in
  Server.disconnect transport st' = st'
  /\ Server.sseTransports (Server.disconnect transport st')
     !! Server.sessionId transport = Some transport
  /\ Server.closed (Server.disconnect transport st') = Server.closed st.
Proof.
  intros Hfresh. cbv zeta. cbn [Server.sse_handler fst].
  assert (Hsame : forall s, Server.listeners s = Server.listeners st ->
                            Server.disconnect transport s = s).
  { intros s Hs. unfold Server.disconnect. rewrite Hs.
    now rewrite bool_decide_eq_false_2. }
  rewrite Hsame by reflexivity.
  split; [reflexivity |]. split; [apply lookup_insert_eq | reflexivity].
Qed.

Lemma failed_connect_stays_registered_example :
  Server.sseTransports
    (Server.disconnect Scenario.first_transport
       (fst (Server.sse_handler Scenario.first_transport
               (Server.ConnectFailed (ErrorObject "Error" "boom") false)
               Server.initial)))
  !! Server.sessionId Scenario.first_transport = Some Scenario.first_transport.
Proof.
  destruct (failed_connect_stays_registered Scenario.first_transport
              (ErrorObject "Error" "boom") false Server.initial)
    as [_ [Hstays _]]; [apply not_elem_of_nil | exact Hstays].
Defined.

(** ** The tool handlers, continued *)

Section MoreHandlers.

Context {Remote : Type}.
Variable fetch : string -> RequestInit -> Remote -> (Thrown + Response) * Remote.
Variable SyntaxError_message : string -> string.
Variable describe : string -> Value -> Outcome string.
Variable getClient : @Async Remote WordPressClient.

#[local] Abbreviation request := (request fetch SyntaxError_message).
#[local] Abbreviation bulk_moderate_comments :=
  (bulk_moderate_comments fetch SyntaxError_message getClient).
#[local] Abbreviation delete_post := (delete_post fetch SyntaxError_message getClient).
#[local] Abbreviation delete_page := (delete_page fetch SyntaxError_message getClient).
#[local] Abbreviation delete_comment :=
  (delete_comment fetch SyntaxError_message getClient).
#[local] Abbreviation delete_media := (delete_media fetch SyntaxError_message getClient).
#[local] Abbreviation update_post :=
  (update_post fetch SyntaxError_message describe getClient).
#[local] Abbreviation update_page :=
  (update_page fetch SyntaxError_message describe getClient).
#[local] Abbreviation update_media :=
  (update_media fetch SyntaxError_message describe getClient).
#[local] Abbreviation update_site_settings :=
  (update_site_settings fetch SyntaxError_message describe getClient).

(** X15. The summary of a bulk moderation counts every comment once: the
    numbers after [Successful:] and [Failed:] add up to the number of
    identifiers given. *)
Theorem bulk_moderation_counts (comment_ids : list Number) (status : CommentStatus)
  (w w1 : World) (client : WordPressClient) :
  getClient w = (Fulfilled client, w1) ->
  exists (successful failed : nat) (details : string),
    fst (bulk_moderate_comments comment_ids status w)
    = Fulfilled (TextContent
                   ("Bulk moderation complete." +:+ newline +:+ newline +:+
                    "Successful: " +:+ count successful +:+ newline +:+
                    "Failed: " +:+ count failed +:+ newline +:+ newline +:+
                    "Details:" +:+ newline +:+ details))
    /\ (successful + failed = length comment_ids)%nat.
Proof.
  intros Hclient. unfold WordPress.bulk_moderate_comments, bind. rewrite Hclient.
  pose proof (moderate_each_length fetch SyntaxError_message client status
                comment_ids w1) as Hlength.
  destruct (moderate_each fetch SyntaxError_message client status comment_ids [] w1)
    as [results w2].
  cbn [fst] in *. unfold bulk_text. do 3 eexists. split; [reflexivity |].
  rewrite <- Hlength. apply List.filter_length.
Qed.

(** What a handler does once it has the client and the request has been
    answered with [answer]. *)
Lemma handler_after_request (endpoint : string) (options : RequestInit)
  (k : Value -> Async ToolResult) (w w1 : World) (client : WordPressClient)
  (answer : Value) :
  getClient w = (Fulfilled client, w1) ->
  fst (request client endpoint options w1) = Fulfilled answer ->
  bind getClient (fun client => bind (request client endpoint options) k) w
  = k answer (snd (request client endpoint options w1)).
Proof.
  intros Hclient Hanswer. unfold bind. rewrite Hclient.
  destruct (request client endpoint options w1) as [outcome w2].
  cbn [fst snd] in *. now rewrite Hanswer.
Qed.

(** X16. The delete handlers for posts, pages and media read
    [title.rendered] of the answer. When the site has carried out the
    deletion and answers with an object that has no [title] (the answer to
    a forced deletion is [{deleted, previous}]), they reject with a
    [TypeError], although the DELETE request was sent; the handler for
    comments, which reads [id] only, is fulfilled with [undefined] as the
    identifier. *)
Theorem delete_handlers_need_title (resource_id : Number) (force : bool)
  (w w1 : World) (client : WordPressClient) (members : list (string * Value)) :
  getClient w = (Fulfilled client, w1) ->
  assoc "title" members = None ->
  assoc "id" members = None ->
  let no_title :=
    Rejected (ErrorObject "TypeError"
                "Cannot read properties of undefined (reading 'rendered')") in
  let query := if force then "?force=true" else "" in
  let answered (path : string) :=
    fst (request client (path +:+ Number_toString resource_id +:+ query)
           (with_method "DELETE" None) w1) = Fulfilled (JObj members) in
  (answered "/posts/" ->
   fst (delete_post resource_id force w) = no_title
   /\ urls (snd (delete_post resource_id force w))
      = urls w1 ++ [apiBase client +:+ "/posts/" +:+ Number_toString resource_id +:+ query])
  /\ (answered "/pages/" ->
      fst (delete_page resource_id force w) = no_title
      /\ urls (snd (delete_page resource_id force w))
         = urls w1 ++ [apiBase client +:+ "/pages/" +:+ Number_toString resource_id +:+ query])
  /\ (fst (request client ("/media/" +:+ Number_toString resource_id +:+ "?force=true")
             (with_method "DELETE" None) w1) = Fulfilled (JObj members) ->
      fst (delete_media resource_id w) = no_title
      /\ urls (snd (delete_media resource_id w))
         = urls w1 ++ [apiBase client +:+ "/media/" +:+ Number_toString resource_id +:+
                       "?force=true"])
  /\ (answered "/comments/" ->
      fst (delete_comment resource_id force w)
      = Fulfilled (TextContent ("Comment (ID: undefined) has been " +:+
                                action_of force +:+ "."))).
Proof.
  intros Hclient Htitle Hid. cbv zeta.
  assert (Hurls : forall endpoint,
            urls (snd (request client endpoint (with_method "DELETE" None) w1))
            = urls w1 ++ [resolve_url client endpoint])
    by (intros endpoint; apply request_urls).
  split; [| split; [| split]]; intros Hanswer.
  - assert (Hpair : delete_post resource_id force w
                    = (Rejected (ErrorObject "TypeError"
                         "Cannot read properties of undefined (reading 'rendered')"),
                       snd (request client
                              ("/posts/" +:+ Number_toString resource_id +:+
                               (if force then "?force=true" else ""))
                              (with_method "DELETE" None) w1))).
    { unfold WordPress.delete_post, deletePost. cbn [default from_option id].
      rewrite (handler_after_request _ _ _ w w1 client (JObj members) Hclient Hanswer).
      unfold bind, read at 1, member. now rewrite Htitle. }
    rewrite Hpair. cbn [fst snd]. split; [reflexivity |].
    rewrite Hurls. destruct force; reflexivity.
  - assert (Hpair : delete_page resource_id force w
                    = (Rejected (ErrorObject "TypeError"
                         "Cannot read properties of undefined (reading 'rendered')"),
                       snd (request client
                              ("/pages/" +:+ Number_toString resource_id +:+
                               (if force then "?force=true" else ""))
                              (with_method "DELETE" None) w1))).
    { unfold WordPress.delete_page, deletePage. cbn [default from_option id].
      rewrite (handler_after_request _ _ _ w w1 client (JObj members) Hclient Hanswer).
      unfold bind, read at 1, member. now rewrite Htitle. }
    rewrite Hpair. cbn [fst snd]. split; [reflexivity |].
    rewrite Hurls. destruct force; reflexivity.
  - assert (Hpair : delete_media resource_id w
                    = (Rejected (ErrorObject "TypeError"
                         "Cannot read properties of undefined (reading 'rendered')"),
                       snd (request client
                              ("/media/" +:+ Number_toString resource_id +:+ "?force=true")
                              (with_method "DELETE" None) w1))).
    { unfold WordPress.delete_media, deleteMedia. cbn [default from_option id].
      rewrite (handler_after_request _ _ _ w w1 client (JObj members) Hclient Hanswer).
      unfold bind, read at 1, member. now rewrite Htitle. }
    rewrite Hpair. cbn [fst snd]. split; [reflexivity |].
    rewrite Hurls. reflexivity.
  - unfold WordPress.delete_comment, deleteComment. cbn [default from_option id].
    rewrite (handler_after_request _ _ _ w w1 client (JObj members) Hclient Hanswer).
    unfold bind, read, member. now rewrite Hid.
Qed.

(** After the client and one request, a continuation that sends nothing
    leaves exactly that request added to those sent. *)
Lemma handler_sent (endpoint : string) (options : RequestInit)
  (k : Value -> Async ToolResult) (w w1 : World) (client : WordPressClient) :
  getClient w = (Fulfilled client, w1) ->
  (forall v w', sent (snd (k v w')) = sent w') ->
  sent (snd (bind getClient (fun client => bind (request client endpoint options) k) w))
  = sent w1 ++ [(resolve_url client endpoint,
                 {| method := method options; headers := json_headers client options;
                    body := body options |})].
Proof.
  intros Hclient Hquiet. unfold bind. rewrite Hclient.
  pose proof (request_world fetch SyntaxError_message client endpoint options w1)
    as Hworld. cbv zeta in Hworld.
  destruct (request client endpoint options w1) as [[v | thrown] w2];
    cbn [snd] in *; [rewrite Hquiet |]; rewrite Hworld; reflexivity.
Qed.

(** X17. With at least one field left after the undefined ones are
    removed, an update handler sends exactly one request once it has the
    client: a POST to the resource, with the JSON headers, whose body is
    the JSON text of the fields that are left. *)
Theorem update_with_fields (args : UpdateArgs) (settings : Object) (w w1 : World)
  (client : WordPressClient) :
  getClient w = (Fulfilled client, w1) ->
  let posted (endpoint : string) (input : Object) (w' : World) :=
    sent w'
    = sent w1 ++
      [(apiBase client +:+ endpoint,
        {| method := Some "POST";
           headers := [("Authorization", getAuthHeader client);
                       ("Content-Type", "application/json")];
           body := json_body (without_undefined input) |})] in
  (without_undefined (updateData args) <> [] ->
   posted ("/posts/" +:+ Number_toString (resource_id args)) (updateData args)
     (snd (update_post args w))
   /\ posted ("/pages/" +:+ Number_toString (resource_id args)) (updateData args)
        (snd (update_page args w))
   /\ posted ("/media/" +:+ Number_toString (resource_id args)) (updateData args)
        (snd (update_media args w)))
  /\ (without_undefined settings <> [] ->
      posted "/settings" settings (snd (update_site_settings settings w))).
Proof.
  intros Hclient. cbv zeta.
  assert (Hquiet : forall name (v : Value) (w' : @World Remote),
            sent (snd ((bind (settle (describe name v))
                          (fun text => resolve (TextContent text))) w')) = sent w').
  { intros name v w'. unfold bind, settle, resolve.
    destruct (describe name v); reflexivity. }
  split.
  - intros Hfields.
    unfold WordPress.update_post, WordPress.update_page, WordPress.update_media.
    destruct (without_undefined (updateData args)) as [| kv cleanData]; [congruence |].
    cbn [map length Nat.eqb].
    unfold updatePost, updatePage, updateMedia.
    split; [| split];
      rewrite (handler_sent _ _ _ w w1 client Hclient)
        by (intros v w'; apply Hquiet); reflexivity.
  - intros Hfields. unfold WordPress.update_site_settings.
    destruct (without_undefined settings) as [| kv cleanData]; [congruence |].
    cbn [map length Nat.eqb]. unfold updateSettings.
    rewrite (handler_sent _ _ _ w w1 client Hclient)
      by (intros v w'; apply Hquiet); reflexivity.
Qed.

End MoreHandlers.

(** ** The media upload, continued *)

Lemma append_text_cons (name : string) (field : option string) (e : FormEntry)
  (form : list FormEntry) :
  append_text name field (e :: form) = e :: append_text name field form.
Proof. unfold append_text. destruct field as [s |]; [destruct (String.eqb s "") |]; reflexivity. Qed.

Lemma append_text_Forall (P : FormEntry -> Prop) (name : string) (field : option string)
  (form : list FormEntry) :
  List.Forall P form ->
  (forall s, field = Some s -> s <> "" -> P (TextEntry name (USVString s))) ->
  List.Forall P (append_text name field form).
Proof.
  intros Hform Hfield. unfold append_text.
  destruct field as [s |]; [| exact Hform].
  destruct (String.eqb_spec s "") as [-> | Hne]; [exact Hform |].
  apply List.Forall_app. split; [exact Hform |].
  constructor; [| constructor]. now apply Hfield.
Qed.

(** The type a blob gets from a content type, and a lone surrogate in a
    form value. *)
Example blob_type_examples :
  blob_type "image/png" = "image/png"
  /\ blob_type "Image/PNG; Charset=UTF-8" = "image/png; charset=utf-8"
  /\ blob_type (String (chr 233) "") = ""
  /\ USVString (String (chr 237) (String (chr 160) (String (chr 128) "a")))
     = String (chr 239) (String (chr 191) (String (chr 189) "a")).
Proof. repeat split; vm_compute; reflexivity. Qed.

Section Upload.

Context {Remote : Type}.
Variable fetch : string -> RequestInit -> Remote -> (Thrown + Response) * Remote.
Variable SyntaxError_message : string -> string.

(** X18. An upload sends one POST to [/media] whose only header is
    [Authorization] (no JSON content type) and whose body is a form that
    starts with the file, under the name [file] and with the file name
    given. For a buffer the type of the entry is the one [new Blob] makes
    of [contentType]: in lower case when every character of it is
    printable ASCII, and empty otherwise; for a blob it is the blob's own
    type, and [contentType] is not used. Every other entry of the form is
    a text field that comes from an option that is set: [title],
    [caption], [description] or [alt_text] with a non-empty string, or
    [post] with a number that is neither [0] nor [NaN]. Names and values
    are taken as [USVString]s. *)
Theorem uploadMedia_form (this : WordPressClient) (file : FileData)
  (filename contentType : string) (options : UploadOptions) (w : World) :
  exists entries,
    sent (snd (uploadMedia fetch SyntaxError_message this file filename contentType
                 options w))
    = sent w ++
      [(apiBase this +:+ "/media",
        {| method := Some "POST";
           headers := [("Authorization", getAuthHeader this)];
           body :=
             Some (FormBody
                     (match file with
                      | BufferData bytes =>
                          FileEntry "file" bytes
                            (if forallb (fun c => (32 <=? code c) && (code c <=? 126))
                                  (list_ascii_of_string contentType)
                             then toLowerCase_ascii contentType else "")
                            (USVString filename)
                      | BlobData bytes type =>
                          FileEntry "file" bytes type (USVString filename)
                      end :: entries)) |})]
    /\ List.Forall
         (fun entry =>
            match entry with
            | FileEntry _ _ _ _ => False
            | TextEntry name value =>
                (exists s, s <> "" /\ value = USVString s
                           /\ In (name, Some s)
                                [("title", title options); ("caption", caption options);
                                 ("description", description options);
                                 ("alt_text", alt_text options)])
                \/ (name = "post"
                    /\ exists n, post options = Some n /\ truthy (JNum n) = true
                                 /\ value = Number_toString n)
            end) entries.
Proof.
  set (P := fun entry =>
              match entry with
              | FileEntry _ _ _ _ => False
              | TextEntry name value =>
                  (exists s, s <> "" /\ value = USVString s
                             /\ In (name, Some s)
                                  [("title", title options); ("caption", caption options);
                                   ("description", description options);
                                   ("alt_text", alt_text options)])
                  \/ (name = "post"
                      /\ exists n, post options = Some n /\ truthy (JNum n) = true
                                   /\ value = Number_toString n)
              end).
  set (texts := append_text "alt_text" (alt_text options)
                  (append_text "description" (description options)
                     (append_text "caption" (caption options)
                        (append_text "title" (title options) [])))).
  assert (Htexts : List.Forall P texts).
  { unfold texts.
    repeat (apply append_text_Forall;
            [| intros s Hs Hne; left; exists s; split; [exact Hne |];
               split; [reflexivity |]; rewrite <- Hs; simpl; tauto]).
    constructor. }
  exists (match post options with
          | Some n => if truthy (JNum n) then texts ++ [TextEntry "post" (Number_toString n)]
                      else texts
          | None => texts
          end).
  split.
  - unfold uploadMedia, bind, do_fetch. cbv zeta. rewrite !append_text_cons.
    fold texts.
    change (file_entry file filename contentType)
      with (match file with
            | BufferData bytes =>
                FileEntry "file" bytes
                  (if forallb (fun c => (32 <=? code c) && (code c <=? 126))
                        (list_ascii_of_string contentType)
                   then toLowerCase_ascii contentType else "")
                  (USVString filename)
            | BlobData bytes type => FileEntry "file" bytes type (USVString filename)
            end).
    set (first := match file with
                  | BufferData bytes => _
                  | BlobData bytes type => _
                  end).
    assert (Hform :
              match post options with
              | Some n =>
                  if truthy (JNum n)
                  then (first :: texts) ++ [TextEntry "post" (Number_toString n)]
                  else first :: texts
              | None => first :: texts
              end
              = first ::
                match post options with
                | Some n =>
                    if truthy (JNum n) then texts ++ [TextEntry "post" (Number_toString n)]
                    else texts
                | None => texts
                end).
    { destruct (post options) as [n |]; [destruct (truthy (JNum n)) |]; reflexivity. }
    rewrite Hform.
    destruct (fetch _ _ (remote w)) as [[thrown | response] remote']; cbn; [reflexivity |].
    destruct (ok response); cbn; [| reflexivity].
    unfold response_json. destruct (JSON_parse (text response)); reflexivity.
  - destruct (post options) as [n |] eqn:Hpost; [| exact Htexts].
    destruct (truthy (JNum n)) eqn:Htruthy; [| exact Htexts].
    apply List.Forall_app. split; [exact Htexts |].
    constructor; [| constructor]. right. split; [reflexivity |].
    exists n. auto.
Qed.

End Upload.

Lemma bulk_moderation_counts_example :
  exists (successful failed : nat) (details : string),
    fst (bulk_moderate_comments Scenario.two_and_five_fail Scenario.no_message
           getWordPressClient Scenario.six_comments approved Scenario.world)
    = Fulfilled (TextContent
                   ("Bulk moderation complete." +:+ newline +:+ newline +:+
                    "Successful: " +:+ count successful +:+ newline +:+
                    "Failed: " +:+ count failed +:+ newline +:+ newline +:+
                    "Details:" +:+ newline +:+ details))
    /\ (successful + failed = length Scenario.six_comments)%nat.
Proof.
  apply (bulk_moderation_counts Scenario.two_and_five_fail Scenario.no_message
           getWordPressClient Scenario.six_comments approved
           Scenario.world Scenario.world Scenario.client).
  reflexivity.
Defined.

Lemma delete_handlers_need_title_example :
  fst (delete_post (Scenario.always Scenario.forced_deletion) Scenario.no_message
         getWordPressClient (Dec 7 0) true Scenario.world)
  = Rejected (ErrorObject "TypeError"
                "Cannot read properties of undefined (reading 'rendered')").
Proof.
  pose proof (delete_handlers_need_title (Scenario.always Scenario.forced_deletion)
                Scenario.no_message getWordPressClient (Dec 7 0) true
                Scenario.world Scenario.world Scenario.client
                [("deleted", JBool true); ("previous", JObj [("id", JInt 7)])]
                eq_refl eq_refl eq_refl) as H.
  cbv zeta in H. destruct H as [Hpost _].
  apply Hpost. vm_compute. reflexivity.
Defined.

Lemma update_with_fields_example :
  sent (snd (update_post (Scenario.always Scenario.three_pages) Scenario.no_message
               Scenario.no_description getWordPressClient Scenario.new_title
               Scenario.world))
  = [("https://example.com/wp-json/wp/v2/posts/7",
      {| method := Some "POST";
         headers := [("Authorization", getAuthHeader Scenario.client);
                     ("Content-Type", "application/json")];
         body := Some (TextBody ("{" +:+ quoted "title" +:+ ":" +:+ quoted "New" +:+ "}")) |})].
Proof.
  pose proof (update_with_fields (Scenario.always Scenario.three_pages)
                Scenario.no_message Scenario.no_description getWordPressClient
                Scenario.new_title [] Scenario.world Scenario.world Scenario.client
                eq_refl) as H.
  cbv zeta in H. destruct H as [Hargs _].
  destruct Hargs as [Hpost _]; [discriminate |].
  exact Hpost.
Defined.

(** ** The site information *)

(** A path that starts with a slash cannot complete the prefix [http]. *)
Lemma startsWith_http_path (site path : string) :
  startsWith "http" (site +:+ String "/" path) = startsWith "http" site.
Proof.
  unfold startsWith.
  destruct site as [| a [| b [| c [| d site]]]];
    repeat rewrite append_cons; change ("" +:+ String "/" path) with (String "/" path);
    cbn [String.prefix];
    repeat match goal with
           | |- context [ascii_dec ?x ?y] =>
               let H := fresh in
               destruct (ascii_dec x y) as [H | ?]; [try discriminate H |]
           end;
    try reflexivity; try (destruct site; reflexivity).
Qed.

Section SiteInfo.

Context {Remote : Type}.
Variable fetch : string -> RequestInit -> Remote -> (Thrown + Response) * Remote.
Variable SyntaxError_message : string -> string.

(** X19. [getSiteInfo] asks for [/wp-json] at the site URL itself, outside
    the API base, only when the site URL starts with [http]; for a site
    URL written without its scheme the request goes to the API base
    followed by the site URL and [/wp-json]. *)
Theorem getSiteInfo_url (this : WordPressClient) (w : World) :
  urls (snd (getSiteInfo fetch SyntaxError_message this w))
  = urls w ++
    [if startsWith "http" (siteUrl this) then siteUrl this +:+ "/wp-json"
     else apiBase this +:+ siteUrl this +:+ "/wp-json"].
Proof.
  unfold getSiteInfo. rewrite request_urls. unfold resolve_url.
  now rewrite (startsWith_http_path (siteUrl this) "wp-json").
Qed.

End SiteInfo.
